(** * queries.js: the bookstore query script, embedded and verified

    The script issues commands against the collection [db.books] of a
    document store.  The store is an external collaborator; only what the
    script relies on is modelled:

    - a collection is the list of its documents in natural order;
    - a cursor is the query descriptor assembled on the client by
      [find(..).sort(..).skip(..).limit(..)]; [toArray] hands it to the
      store, which filters, sorts, skips, limits and projects, in that order;
    - [updateOne] and [deleteOne] act on the first matching document;
    - an aggregation pipeline is the composition of its stages.

    The order in which the store returns documents with equal sort keys is
    the store's own business and may change from one execution to the next,
    so the sort is an interface ([StoreSort]): one implementation stands for
    the order of one execution, and a statement about several queries takes
    one implementation per query.  Two implementations ([stable_store],
    [reversing_store]) are given, so that every command can be run on
    concrete data.

    Numbers: [published_year], page numbers and offsets are integers ([Z]);
    the cursor carries the offset as an integer, which is what the script
    computes as long as the offset stays within 2^53 ([computed_skip] is the
    computation in binary64).  A price is the rational value ([Q]) of the
    stored double; [$avg] computes in binary64 ([round64]). *)

From Stdlib Require Import String Ascii.
From Stdlib Require Import ZArith QArith Qabs Qpower Qround Qreduction.
From Stdlib Require Import List Bool Lia Lqa.
From Stdlib Require Import Permutation Sorted.
Import ListNotations.
Open Scope Z_scope.

(* ================================================================== *)
(** ** The store's sort, as an interface *)

Definition total_leb {A} (le : A -> A -> bool) : Prop :=
  forall x y, le x y = true \/ le y x = true.

Definition transitive_leb {A} (le : A -> A -> bool) : Prop :=
  forall x y z, le x y = true -> le y z = true -> le x z = true.

Definition holds {A} (le : A -> A -> bool) (x y : A) : Prop := le x y = true.

Class StoreSort := {
  sortBy : forall {A}, (A -> A -> bool) -> list A -> list A;
  sortBy_perm : forall A (le : A -> A -> bool) l, Permutation l (sortBy le l);
  sortBy_sorted : forall A (le : A -> A -> bool),
      total_leb le -> transitive_leb le ->
      forall l, StronglySorted (holds le) (sortBy le l)
}.

(** A stable insertion sort: documents with equal keys keep their order. *)
Fixpoint insert_by {A} (le : A -> A -> bool) (x : A) (l : list A) : list A :=
  match l with
  | [] => [x]
  | y :: r => if le x y then x :: y :: r else y :: insert_by le x r
  end.

Fixpoint stable_sort {A} (le : A -> A -> bool) (l : list A) : list A :=
  match l with
  | [] => []
  | x :: r => insert_by le x (stable_sort le r)
  end.

(** Another admissible order: documents with equal keys come out in the
    reverse of their order. *)
Definition reversing_sort {A} (le : A -> A -> bool) (l : list A) : list A :=
  stable_sort le (rev l).

(* ================================================================== *)
(** ** Documents *)

Record Book := mkBook {
  _id : nat;
  title : string;
  author : string;
  genre : string;
  published_year : Z;
  price : Q;
  in_stock : bool
}.

(** [db.books], in natural order. *)
Definition Collection := list Book.

(** Projection [{ title: 1, author: 1, price: 1, _id: 0 }]. *)
Record TitleAuthorPrice := mkTAP {
  tap_title : string;
  tap_author : string;
  tap_price : Q
}.

Definition title_author_price (b : Book) : TitleAuthorPrice :=
  mkTAP (title b) (author b) (price b).

(** The filter documents of the script. *)
Inductive Filter :=
| FAll                              (* {} *)
| FGenre (g : string)               (* { genre: g } *)
| FAuthor (a : string)              (* { author: a } *)
| FTitle (t : string)               (* { title: t } *)
| FYearGt (y : Z)                   (* { published_year: { $gt: y } } *)
| FInStockYearGt (y : Z).           (* { in_stock: true, published_year: { $gt: y } } *)

Definition matches (f : Filter) (b : Book) : bool :=
  match f with
  | FAll => true
  | FGenre g => String.eqb (genre b) g
  | FAuthor a => String.eqb (author b) a
  | FTitle t => String.eqb (title b) t
  | FYearGt y => y <? published_year b
  | FInStockYearGt y => in_stock b && (y <? published_year b)
  end.

(** Sort document [{ title: 1 }]: strings compare byte by byte. *)
Definition by_title_asc (b1 b2 : Book) : bool := String.leb (title b1) (title b2).

(* ================================================================== *)
(** ** Numbers in binary64 *)

(** A JavaScript number or a double of the store, as far as the script can
    produce one from finite operands: a finite value, or an infinity. *)
Inductive number :=
| Num (q : Q)
| Infinite (negative : bool).

Definition pow2 (e : Z) : Q := ((2 # 1) ^ e)%Q.

(** The exponent of the leading bit of a positive rational. *)
Definition floor_log2 (x : Q) : Z :=
  let k := Z.log2 (Qnum x) - Z.log2 (Zpos (Qden x)) in
  if Qle_bool (pow2 k) x then k else k - 1.

(** The nearest integer, ties to even. *)
Definition nearest_even (y : Q) : Z :=
  let q := Qfloor y in
  match (y - inject_Z q ?= 1 # 2)%Q with
  | Lt => q
  | Gt => q + 1
  | Eq => if Z.even q then q else q + 1
  end.

(** The largest finite double, (2^53 - 1) * 2^971. *)
Definition max_finite : Q := inject_Z ((2 ^ 53 - 1) * 2 ^ 971).

(** The exponent of the unit in the last place: 53 significant bits, and
    never below 2^-1074. *)
Definition exponent (x : Q) : Z := Z.max (floor_log2 x - 52) (-1074).

(** Rounding of a positive rational to the nearest double, ties to even;
    [None] is overflow. *)
Definition round64_pos (x : Q) : option Q :=
  let v := (inject_Z (nearest_even (x / pow2 (exponent x))) * pow2 (exponent x))%Q in
  if Qle_bool v max_finite then Some (Qred v) else None.

Definition round64 (x : Q) : number :=
  match (x ?= 0)%Q with
  | Eq => Num 0
  | Gt => match round64_pos x with
          | Some v => Num v
          | None => Infinite false
          end
  | Lt => match round64_pos (- x) with
          | Some v => Num (- v)
          | None => Infinite true
          end
  end.

(** The order of numbers. *)
Definition number_leb (x y : number) : bool :=
  match x, y with
  | Infinite true, _ => true
  | _, Infinite false => true
  | Num a, Num b => Qle_bool a b
  | _, _ => false
  end.

(** An integer literal, [x - k] and [x * k] for the integer constants of
    the script: the exact result, rounded. *)
Definition js_number (z : Z) : number := round64 (inject_Z z).

Definition js_sub (x : number) (k : Z) : number :=
  match x with
  | Num a => round64 (a - inject_Z k)
  | Infinite b => Infinite b
  end.

Definition js_mul (x : number) (k : positive) : number :=
  match x with
  | Num a => round64 (a * inject_Z (Zpos k))
  | Infinite b => Infinite b
  end.

(* ================================================================== *)
(** ** Cursors *)

Inductive result (A : Type) :=
| Ok (a : A)
| StoreError (msg : string).
Arguments Ok {A} a.
Arguments StoreError {A} msg.

Record Cursor (R : Type) := mkCursor {
  cur_filter : Filter;
  cur_projection : Book -> R;
  cur_sort : option (Book -> Book -> bool);
  cur_skip : Z;
  cur_limit : Z
}.
Arguments mkCursor {R}.
Arguments cur_filter {R}.
Arguments cur_projection {R}.
Arguments cur_sort {R}.
Arguments cur_skip {R}.
Arguments cur_limit {R}.

(** [db.books.find(filter, projection)] *)
Definition find {R} (f : Filter) (p : Book -> R) : Cursor R :=
  mkCursor f p None 0 0.

(** [.sort(s)], [.skip(n)], [.limit(n)]: each only records its argument. *)
Definition sort {R} (le : Book -> Book -> bool) (c : Cursor R) : Cursor R :=
  mkCursor (cur_filter c) (cur_projection c) (Some le) (cur_skip c) (cur_limit c).

Definition skip {R} (n : Z) (c : Cursor R) : Cursor R :=
  mkCursor (cur_filter c) (cur_projection c) (cur_sort c) n (cur_limit c).

Definition limit {R} (n : Z) (c : Cursor R) : Cursor R :=
  mkCursor (cur_filter c) (cur_projection c) (cur_sort c) (cur_skip c) n.

(** The store's window on a sorted result: [n = 0] means no limit, a
    negative [n] limits to [-n]. *)
Definition apply_limit {A} (n : Z) (l : list A) : list A :=
  if n =? 0 then l else firstn (Z.abs_nat n) l.

Section Store.
Context {store : StoreSort}.

Definition apply_sort (o : option (Book -> Book -> bool)) (l : list Book) : list Book :=
  match o with
  | Some le => sortBy le l
  | None => l
  end.

(** [.toArray()]: the store runs the query.  It refuses a negative skip;
    otherwise it filters, sorts, skips, limits and projects. *)
Definition toArray {R} (books : Collection) (c : Cursor R) : result (list R) :=
  if cur_skip c <? 0 then StoreError "skip value must be non-negative"
  else
    let matched := filter (matches (cur_filter c)) books in
    let sorted := apply_sort (cur_sort c) matched in
    let skipped := skipn (Z.to_nat (cur_skip c)) sorted in
    Ok (map (cur_projection c) (apply_limit (cur_limit c) skipped)).

(* ---------------------------------------------------------------- *)
(** ** Task 3 D: pagination (queries.js, lines 62-70) *)

Section Pagination.
(** The constant the helper closes over, [const pageSize]. *)
Variable pageSize : Z.

(** The cursor built by the body of [showPage]. *)
Definition pageCursor (page : Z) : Cursor TitleAuthorPrice :=
  let skip_ := (page - 1) * pageSize in
  limit pageSize
    (skip skip_
       (sort by_title_asc
          (find FAll title_author_price))).

(** The body of [showPage], for the page size it closes over. *)
Definition paginate (books : Collection) (page : Z)
  : result (list TitleAuthorPrice) :=
  toArray books (pageCursor page).
End Pagination.

(** [const pageSize = 5;] *)
Definition pageSize : Z := 5.

(** [function showPage(page)] *)
Definition showPage (books : Collection) (page : Z)
  : result (list TitleAuthorPrice) :=
  paginate pageSize books page.

(** The title-sorted, fully projected record set the pages are cut from. *)
Definition sorted_projection (books : Collection) : list TitleAuthorPrice :=
  map title_author_price (sortBy by_title_asc books).

(** What a page shows: the records of the answer, nothing on an error. *)
Definition page_records (size : Z) (books : Collection) (page : Z)
  : list TitleAuthorPrice :=
  match paginate size books page with
  | Ok l => l
  | StoreError _ => []
  end.

(** Pages [1 .. count], in order. *)
Definition pages_upto (size : Z) (books : Collection) (count : nat)
  : list (list TitleAuthorPrice) :=
  map (fun k => page_records size books (Z.of_nat k)) (seq 1 count).

(** Among pages [1 .. count]: those holding exactly [size] records, and
    those holding at least one. *)
Definition full_pages (size : Z) (books : Collection) (count : nat) : nat :=
  length (filter (fun l => Z.of_nat (length l) =? size)
                 (pages_upto size books count)).

Definition nonempty_pages (size : Z) (books : Collection) (count : nat) : nat :=
  length (filter (fun l => negb (Nat.eqb (length l) 0))
                 (pages_upto size books count)).

(* ---------------------------------------------------------------- *)
(** ** Task 2 D, E: update and delete (queries.js, lines 28-40) *)

(** [db.books.find({ title: t })]: the lookup that verifies both. *)
Definition findByTitle (t : string) (books : Collection) : result (list Book) :=
  toArray books (find (FTitle t) (fun b => b)).

End Store.

(** Line 64 as JavaScript evaluates it, [(page - 1) * pageSize] in
    binary64. *)
Definition computed_skip (page : Z) : number :=
  js_mul (js_sub (js_number page) 1) (Z.to_pos pageSize).

(** Update document [{ $set: { price: p } }]. *)
Inductive Update :=
| SetPrice (p : Q).

Definition apply_update (u : Update) (b : Book) : Book :=
  match u with
  | SetPrice p =>
      mkBook (_id b) (title b) (author b) (genre b) (published_year b) p (in_stock b)
  end.

(** Whether the update changes the value of the document. *)
Definition changes (u : Update) (b : Book) : bool :=
  match u with
  | SetPrice p => negb (Qeq_bool (price b) p)
  end.

Record UpdateResult := mkUpdateResult {
  matchedCount : nat;
  modifiedCount : nat
}.

(** [updateOne(filter, update)]: the first match in natural order is
    updated in place; nothing is inserted when there is none. *)
Fixpoint updateOne (f : Filter) (u : Update) (books : Collection)
  : Collection * UpdateResult :=
  match books with
  | [] => ([], mkUpdateResult 0 0)
  | b :: rest =>
      if matches f b
      then (apply_update u b :: rest,
            mkUpdateResult 1 (if changes u b then 1 else 0))
      else let (rest', r) := updateOne f u rest in (b :: rest', r)
  end.

(** [deleteOne(filter)]: the first match in natural order is removed; the
    answer is the number of documents removed. *)
Fixpoint deleteOne (f : Filter) (books : Collection) : Collection * nat :=
  match books with
  | [] => ([], 0%nat)
  | b :: rest =>
      if matches f b then (rest, 1%nat)
      else let (rest', n) := deleteOne f rest in (b :: rest', n)
  end.

(** Lines 28-31, with the title and the price of the example as arguments. *)
Definition updatePrice (t : string) (newPrice : Q) (books : Collection)
  : Collection * UpdateResult :=
  updateOne (FTitle t) (SetPrice newPrice) books.

(** Line 37, with the title of the example as argument. *)
Definition deleteByTitle (t : string) (books : Collection) : Collection * nat :=
  deleteOne (FTitle t) books.

(** Lines 28-31 and line 37 as they stand in the script. *)
Definition update_silent_river (books : Collection) : Collection * UpdateResult :=
  updatePrice "The Silent River" (1499 # 100) books.

Definition delete_rust_and_roses (books : Collection) : Collection * nat :=
  deleteByTitle "Rust and Roses" books.

(** The first match of a filter splits the collection. *)
Inductive first_match (f : Filter) : Collection -> Collection -> Book -> Collection -> Prop :=
| FirstMatch before b after :
    Forall (fun x => matches f x = false) before ->
    matches f b = true ->
    first_match f (before ++ b :: after) before b after.

(* ================================================================== *)
(** ** Task 4: aggregation pipelines (queries.js, lines 81-115) *)

(** [$group]: one row per distinct key; [acc] builds the row of a group
    from its key and its documents. *)
Definition in_group {A K} (eq_dec : forall x y : K, {x = y} + {x <> y})
  (key : A -> K) (k : K) (x : A) : bool :=
  if eq_dec (key x) k then true else false.

Definition group {A K Row} (eq_dec : forall x y : K, {x = y} + {x <> y})
  (key : A -> K) (acc : K -> list A -> Row) (docs : list A) : list Row :=
  map (fun k => acc k (filter (in_group eq_dec key k) docs))
      (nodup eq_dec (map key docs)).

(** [$sum] and [$avg].  The store adds the prices of a group with a
    compensated (double-double) summation, so the sum is taken as exact and
    rounded to a double once; the average is that double divided by the
    count, rounded. *)
Definition sumQ (l : list Q) : Q := fold_right Qplus (0 # 1)%Q l.

Definition divide (x : number) (n : nat) : number :=
  match x with
  | Num s => round64 (s / inject_Z (Z.of_nat n))
  | Infinite b => Infinite b
  end.

Definition avg (l : list Q) : number := divide (round64 (sumQ l)) (length l).

(** [$limit: n] *)
Definition limit_stage {A} (n : nat) (l : list A) : list A := firstn n l.

Module ByGenre.
Record row := mk { _id : string; avgPrice : number; count : nat }.
(** [{ $sort: { avgPrice: -1 } }] *)
Definition avgPrice_desc (r1 r2 : row) : bool :=
  number_leb (avgPrice r2) (avgPrice r1).
End ByGenre.

Module ByAuthor.
Record row := mk { _id : string; count : nat }.
(** [{ $sort: { count: -1 } }] *)
Definition count_desc (r1 r2 : row) : bool := Nat.leb (count r2) (count r1).
End ByAuthor.

Module ByDecade.
(** The documents after the [$project] stage. *)
Record projected := mkProjected {
  p_id : nat;
  p_title : string;
  p_published_year : Z;
  decade : Z
}.
Record row := mk { _id : Z; count : nat }.
(** [{ $sort: { _id: 1 } }] *)
Definition id_asc (r1 r2 : row) : bool := Z.leb (_id r1) (_id r2).
End ByDecade.

(** [$mod] on integers: the remainder takes the sign of the dividend. *)
Definition mod_ (a b : Z) : Z := Z.rem a b.

(** [{ $subtract: [ "$published_year", { $mod: [ "$published_year", 10 ] } ] }] *)
Definition decade_of (year : Z) : Z := year - mod_ year 10.

Definition project_decade (b : Book) : ByDecade.projected :=
  ByDecade.mkProjected (_id b) (title b) (published_year b)
                       (decade_of (published_year b)).

Section Aggregation.
Context {store : StoreSort}.

(** Lines 81-90. *)
Definition averagePriceByGenre (books : Collection) : list ByGenre.row :=
  sortBy ByGenre.avgPrice_desc
    (group string_dec genre
       (fun g docs => ByGenre.mk g (avg (map price docs)) (length docs))
       books).

(** Lines 93-97. *)
Definition topAuthorByBookCount (books : Collection) : list ByAuthor.row :=
  limit_stage 1
    (sortBy ByAuthor.count_desc
       (group string_dec author
          (fun a docs => ByAuthor.mk a (length docs))
          books)).

(** Lines 100-115. *)
Definition countByDecade (books : Collection) : list ByDecade.row :=
  sortBy ByDecade.id_asc
    (group Z.eq_dec ByDecade.decade
       (fun d docs => ByDecade.mk d (length docs))
       (map project_decade books)).
End Aggregation.

(** Counting documents by a key, for the statements below. *)
Definition count_where {A} (p : A -> bool) (l : list A) : nat :=
  length (filter p l).

Definition ceil_div (n p : Z) : Z := (n + p - 1) / p.

(* ================================================================== *)
(** ** Task 2 A-C and Task 3 A-C: the find commands (queries.js, lines 16-59) *)

(** Projection [{ title: 1, price: 1, _id: 0 }]. *)
Record TitlePrice := mkTP {
  tp_title : string;
  tp_price : Q
}.

Definition title_price (b : Book) : TitlePrice := mkTP (title b) (price b).

(** Projection [{ title: 1, author: 1, published_year: 1, _id: 0 }]. *)
Record TitleAuthorYear := mkTAY {
  tay_title : string;
  tay_author : string;
  tay_published_year : Z
}.

Definition title_author_year (b : Book) : TitleAuthorYear :=
  mkTAY (title b) (author b) (published_year b).

(** Sort documents [{ price: 1 }] and [{ price: -1 }]. *)
Definition by_price_asc (b1 b2 : Book) : bool := Qle_bool (price b1) (price b2).
Definition by_price_desc (b1 b2 : Book) : bool := Qle_bool (price b2) (price b1).

Section FindCommands.
Context {store : StoreSort}.

(** Line 16, with the genre of the example as argument. *)
Definition findByGenre (g : string) (books : Collection) : result (list Book) :=
  toArray books (find (FGenre g) (fun b => b)).


(** Line 22, with the year of the example as argument. *)
Definition findPublishedAfter (y : Z) (books : Collection) : result (list Book) :=
  toArray books (find (FYearGt y) (fun b => b)).

(** Line 25, with the author of the example as argument. *)
Definition findByAuthor (a : string) (books : Collection) : result (list Book) :=
  toArray books (find (FAuthor a) (fun b => b)).

(** Line 34: the projected lookup that follows the update. *)
Definition findTitlePrice (t : string) (books : Collection)
  : result (list TitlePrice) :=
  toArray books (find (FTitle t) title_price).

(** Lines 47-50, with the year of the example as argument. *)
Definition findInStockAfterYear (y : Z) (books : Collection)
  : result (list TitleAuthorYear) :=
  toArray books (find (FInStockYearGt y) title_author_year).

(** Line 53. *)
Definition projectAll (books : Collection) : result (list TitleAuthorPrice) :=
  toArray books (find FAll title_author_price).

(** Lines 56 and 59. *)
Definition sortByPriceAsc (books : Collection) : result (list TitlePrice) :=
  toArray books (sort by_price_asc (find FAll title_price)).

Definition sortByPriceDesc (books : Collection) : result (list TitlePrice) :=
  toArray books (sort by_price_desc (find FAll title_price)).

End FindCommands.


(** The records of an answer, nothing on an error. *)
Definition records {A} (r : result (list A)) : list A :=
  match r with
  | Ok l => l
  | StoreError _ => []
  end.

(* ================================================================== *)
(** ** Sample collections *)

Definition sample_books : Collection :=
  [ mkBook 1 "Rust and Roses" "Maria Njeri" "Romance" 2012 (899 # 100) true;
    mkBook 2 "The Silent River" "Maria Njeri" "Fantasy" 2018 (1250 # 100) true;
    mkBook 3 "Ashes of Dawn" "Peter Kamau" "Fantasy" 2005 (1000 # 100) false ].

Definition six_books : Collection :=
  [ mkBook 1 "F" "a1" "g1" 2001 (6 # 1) true;
    mkBook 2 "E" "a1" "g1" 2002 (5 # 1) true;
    mkBook 3 "D" "a2" "g2" 2003 (4 # 1) true;
    mkBook 4 "C" "a2" "g2" 2014 (3 # 1) true;
    mkBook 5 "B" "a3" "g3" 2015 (2 # 1) true;
    mkBook 6 "A" "a3" "g3" 2016 (1 # 1) true ].

(** The double nearest to 0.1, and three books of one genre at that price. *)
Definition tenth : Q := 3602879701896397 # 36028797018963968.


Definition two_books_one_title : Collection :=
  [ mkBook 1 "B" "first author" "Drama" 2001 (10 # 1) true;
    mkBook 2 "B" "second author" "Drama" 2002 (20 # 1) true ].

(* ================================================================== *)
(** * Properties *)

(** ** The stable sort implements the interface *)

Section StableSort.
Context {A : Type} (le : A -> A -> bool).

Lemma insert_by_perm x l : Permutation (x :: l) (insert_by le x l).
Proof.
  induction l as [|y r IH]; simpl.
  - apply Permutation_refl.
  - destruct (le x y).
    + apply Permutation_refl.
    + eapply perm_trans; [apply perm_swap|]. now apply perm_skip.
Qed.

Lemma stable_sort_perm l : Permutation l (stable_sort le l).
Proof.
  induction l as [|x r IH]; simpl.
  - constructor.
  - eapply perm_trans; [apply perm_skip, IH|]. apply insert_by_perm.
Qed.

Hypothesis le_total : total_leb le.
Hypothesis le_trans : transitive_leb le.

Lemma insert_by_sorted x l :
  StronglySorted (holds le) l -> StronglySorted (holds le) (insert_by le x l).
Proof.
  induction 1 as [|y r Hr IH Hy]; simpl.
  - repeat constructor.
  - destruct (le x y) eqn:Exy.
    + constructor; [now constructor|].
      constructor; [exact Exy|].
      rewrite Forall_forall in *. intros z Hz.
      apply (le_trans x y z Exy), Hy, Hz.
    + constructor; [exact IH|].
      assert (Hyx : le y x = true)
        by (destruct (le_total x y) as [E|E]; congruence).
      apply (Permutation_Forall (insert_by_perm x r)).
      now constructor.
Qed.

Lemma stable_sort_sorted l : StronglySorted (holds le) (stable_sort le l).
Proof.
  induction l as [|x r IH]; simpl.
  - constructor.
  - now apply insert_by_sorted.
Qed.
End StableSort.

#[export] Instance stable_store : StoreSort := {
  sortBy := @stable_sort;
  sortBy_perm := @stable_sort_perm;
  sortBy_sorted := @stable_sort_sorted
}.

Lemma reversing_sort_perm {A} (le : A -> A -> bool) (l : list A) :
  Permutation l (reversing_sort le l).
Proof.
  unfold reversing_sort.
  eapply perm_trans; [apply Permutation_rev | apply stable_sort_perm].
Qed.

Lemma reversing_sort_sorted {A} (le : A -> A -> bool) :
  total_leb le -> transitive_leb le ->
  forall l, StronglySorted (holds le) (reversing_sort le l).
Proof.
  intros Htotal Htrans l. unfold reversing_sort.
  now apply stable_sort_sorted.
Qed.

Definition reversing_store : StoreSort := {|
  sortBy := @reversing_sort;
  sortBy_perm := @reversing_sort_perm;
  sortBy_sorted := @reversing_sort_sorted
|}.

(** ** The sort orders of the script are total and transitive *)

Lemma ascii_compare_trans_le a b c :
  Ascii.compare a b <> Gt -> Ascii.compare b c <> Gt -> Ascii.compare a c <> Gt.
Proof.
  unfold Ascii.compare. rewrite !N.compare_le_iff. apply N.le_trans.
Qed.

Lemma string_compare_trans_le s1 : forall s2 s3,
  String.compare s1 s2 <> Gt -> String.compare s2 s3 <> Gt ->
  String.compare s1 s3 <> Gt.
Proof.
  induction s1 as [|a s1 IH]; intros [|b s2] [|c s3]; simpl;
    try congruence.
  destruct (Ascii.compare a b) eqn:Eab; try congruence;
    destruct (Ascii.compare b c) eqn:Ebc; try congruence; intros H12 H23.
  - apply Ascii.compare_eq_iff in Eab, Ebc. subst.
    unfold Ascii.compare. rewrite N.compare_refl. now apply (IH s2).
  - apply Ascii.compare_eq_iff in Eab. subst. now rewrite Ebc.
  - apply Ascii.compare_eq_iff in Ebc. subst. now rewrite Eab.
  - assert (Hac : Ascii.compare a c = Lt).
    { unfold Ascii.compare in *. rewrite N.compare_lt_iff in *.
      eapply N.lt_trans; eassumption. }
    now rewrite Hac.
Qed.

Lemma string_leb_spec s1 s2 : String.leb s1 s2 = true <-> String.compare s1 s2 <> Gt.
Proof.
  unfold String.leb. destruct (String.compare s1 s2); split; congruence.
Qed.

Lemma string_leb_trans : transitive_leb String.leb.
Proof.
  intros x y z. rewrite !string_leb_spec. apply string_compare_trans_le.
Qed.

Lemma by_title_asc_total : total_leb by_title_asc.
Proof. intros x y. apply String.leb_total. Qed.

Lemma by_title_asc_trans : transitive_leb by_title_asc.
Proof. intros x y z. apply string_leb_trans. Qed.





Lemma count_desc_total : total_leb ByAuthor.count_desc.
Proof.
  intros x y. unfold ByAuthor.count_desc. rewrite !Nat.leb_le. lia.
Qed.

Lemma count_desc_trans : transitive_leb ByAuthor.count_desc.
Proof.
  intros x y z. unfold ByAuthor.count_desc. rewrite !Nat.leb_le. lia.
Qed.

Lemma id_asc_total : total_leb ByDecade.id_asc.
Proof.
  intros x y. unfold ByDecade.id_asc. rewrite !Z.leb_le. lia.
Qed.

Lemma id_asc_trans : transitive_leb ByDecade.id_asc.
Proof.
  intros x y z. unfold ByDecade.id_asc. rewrite !Z.leb_le. lia.
Qed.

(** ** List facts used by the pagination proofs *)

Lemma filter_matches_all (books : Collection) : filter (matches FAll) books = books.
Proof.
  induction books as [|b r IH]; simpl; [reflexivity | now rewrite IH].
Qed.

Lemma StronglySorted_map {A B} (f : A -> B) (R : B -> B -> Prop) l :
  StronglySorted (fun x y => R (f x) (f y)) l -> StronglySorted R (map f l).
Proof.
  induction 1 as [|x r Hr IH Hx]; simpl; constructor; [exact IH|].
  rewrite Forall_forall in *. intros y Hy.
  apply in_map_iff in Hy as (z & <- & Hz). now apply Hx.
Qed.

Lemma NoDup_app_disjoint {A} (l1 l2 : list A) x :
  NoDup (l1 ++ l2) -> In x l1 -> In x l2 -> False.
Proof.
  induction l1 as [|a r IH]; simpl; [tauto|].
  intros Hnd [->|Hin] H2; inversion Hnd; subst.
  - match goal with H : ~ In _ _ |- _ => apply H end.
    apply in_or_app. now right.
  - now apply IH.
Qed.

Lemma firstn_add {A} (a b : nat) (l : list A) :
  firstn (a + b) l = firstn a l ++ firstn b (skipn a l).
Proof.
  revert l. induction a as [|a IH]; intros [|x l]; simpl;
    try reflexivity.
  - now rewrite firstn_nil.
  - now rewrite IH.
Qed.

Lemma StronglySorted_app {A} (R : A -> A -> Prop) (l1 l2 : list A) :
  StronglySorted R l1 -> StronglySorted R l2 ->
  (forall x y, In x l1 -> In y l2 -> R x y) ->
  StronglySorted R (l1 ++ l2).
Proof.
  induction 1 as [|x r Hr IH Hx]; intros H2 Hcross; simpl; [exact H2|].
  constructor.
  - apply IH; [exact H2|]. intros a b Ha Hb. apply Hcross; [now right | exact Hb].
  - apply Forall_app. split; [exact Hx|].
    apply Forall_forall. intros b Hb. apply Hcross; [now left | exact Hb].
Qed.

Lemma StronglySorted_rev {A} (R : A -> A -> Prop) (l : list A) :
  StronglySorted R l -> StronglySorted (fun x y => R y x) (rev l).
Proof.
  induction 1 as [|x r Hr IH Hx]; simpl; [constructor|].
  apply StronglySorted_app; [exact IH | repeat constructor |].
  intros a b Ha [<-|[]]. rewrite Forall_forall in Hx.
  apply Hx. now apply in_rev.
Qed.

(** Two sorted arrangements of the same elements are the same list, when
    the order tells the elements apart. *)
Lemma sorted_permutation_unique {A} (R : A -> A -> Prop) (l1 : list A) :
  forall l2,
  (forall x y, In x l1 -> In y l1 -> R x y -> R y x -> x = y) ->
  StronglySorted R l1 -> StronglySorted R l2 -> Permutation l1 l2 ->
  l1 = l2.
Proof.
  induction l1 as [|x r1 IH]; intros l2 Hanti H1 H2 Hperm.
  - symmetry. now apply Permutation_nil.
  - destruct l2 as [|y r2];
      [apply Permutation_sym, Permutation_nil in Hperm; discriminate|].
    apply StronglySorted_inv in H1 as [H1 Hx].
    apply StronglySorted_inv in H2 as [H2 Hy].
    rewrite Forall_forall in Hx, Hy.
    assert (Hxy : x = y).
    { assert (Hx2 : In x (y :: r2)) by (apply (Permutation_in _ Hperm); now left).
      assert (Hy1 : In y (x :: r1))
        by (apply (Permutation_in _ (Permutation_sym Hperm)); now left).
      destruct Hx2 as [->|Hx2]; [reflexivity|].
      destruct Hy1 as [->|Hy1]; [reflexivity|].
      apply Hanti; [now left | now right | now apply Hx | now apply Hy]. }
    subst y. f_equal.
    apply IH; try assumption.
    + intros a b Ha Hb. apply Hanti; now right.
    + now apply Permutation_cons_inv in Hperm.
Qed.

Lemma NoDup_map_injective {A B} (f : A -> B) (l : list A) (x y : A) :
  NoDup (map f l) -> In x l -> In y l -> f x = f y -> x = y.
Proof.
  induction l as [|a r IH]; simpl; [contradiction|].
  intros Hnd Hx Hy E. inversion Hnd as [|? ? Hout Hnd']; subst.
  destruct Hx as [->|Hx], Hy as [->|Hy]; try reflexivity.
  - exfalso. apply Hout. rewrite E. now apply in_map.
  - exfalso. apply Hout. rewrite <- E. now apply in_map.
  - now apply IH.
Qed.

(** ** One order for every execution, up to equal titles *)

(** The titles come out in the same order whatever the store does with
    equal keys. *)
Lemma sorted_titles_unique (s1 s2 : StoreSort) (books : Collection) :
  map title (sortBy (StoreSort := s1) by_title_asc books) =
  map title (sortBy (StoreSort := s2) by_title_asc books).
Proof.
  apply (sorted_permutation_unique (fun t1 t2 => String.leb t1 t2 = true)).
  - intros x y _ _. apply String.leb_antisym.
  - apply StronglySorted_map.
    apply (sortBy_sorted _ by_title_asc by_title_asc_total by_title_asc_trans).
  - apply StronglySorted_map.
    apply (sortBy_sorted _ by_title_asc by_title_asc_total by_title_asc_trans).
  - apply Permutation_map.
    eapply perm_trans; [apply Permutation_sym, sortBy_perm | apply sortBy_perm].
Qed.

(** With distinct titles so do the documents. *)
Lemma sorted_books_unique (s1 s2 : StoreSort) (books : Collection) :
  NoDup (map title books) ->
  sortBy (StoreSort := s1) by_title_asc books =
  sortBy (StoreSort := s2) by_title_asc books.
Proof.
  intros Hnd.
  apply (sorted_permutation_unique (holds by_title_asc)).
  - intros x y Hx Hy Hxy Hyx.
    apply (Permutation_in _ (Permutation_sym (sortBy_perm _ _ _))) in Hx, Hy.
    apply (NoDup_map_injective title books); try assumption.
    now apply String.leb_antisym.
  - apply (sortBy_sorted _ by_title_asc by_title_asc_total by_title_asc_trans).
  - apply (sortBy_sorted _ by_title_asc by_title_asc_total by_title_asc_trans).
  - eapply perm_trans; [apply Permutation_sym, sortBy_perm | apply sortBy_perm].
Qed.

Lemma sorted_projection_unique (s1 s2 : StoreSort) (books : Collection) :
  NoDup (map title books) ->
  sorted_projection (store := s1) books = sorted_projection (store := s2) books.
Proof.
  intros Hnd. unfold sorted_projection. f_equal. now apply sorted_books_unique.
Qed.

Lemma sorted_projection_titles (s1 s2 : StoreSort) (books : Collection) :
  map tap_title (sorted_projection (store := s1) books) =
  map tap_title (sorted_projection (store := s2) books).
Proof.
  unfold sorted_projection. rewrite !map_map. simpl.
  apply sorted_titles_unique.
Qed.

(** ** Pagination *)

Section PaginationFacts.
Context {store : StoreSort}.

Lemma sorted_projection_length books :
  length (sorted_projection books) = length books.
Proof.
  unfold sorted_projection. rewrite length_map.
  symmetry. apply Permutation_length, sortBy_perm.
Qed.

Lemma sorted_projection_perm books :
  Permutation (map title_author_price books) (sorted_projection books).
Proof. apply Permutation_map, sortBy_perm. Qed.

Lemma sorted_projection_sorted books :
  StronglySorted (fun r1 r2 => String.leb (tap_title r1) (tap_title r2) = true)
                 (sorted_projection books).
Proof.
  apply StronglySorted_map.
  apply (sortBy_sorted _ by_title_asc by_title_asc_total by_title_asc_trans).
Qed.

(** With a valid page number and page size the store accepts the query
    and answers with the window of the sorted projection. *)
Lemma paginate_ok size books page :
  1 <= page -> 1 <= size ->
  paginate size books page =
  Ok (firstn (Z.to_nat size)
        (skipn (Z.to_nat ((page - 1) * size)) (sorted_projection books))).
Proof.
  intros Hpage Hsize.
  unfold paginate, toArray, pageCursor, sorted_projection; simpl.
  assert (Hskip : ((page - 1) * size <? 0) = false) by (apply Z.ltb_ge; nia).
  rewrite Hskip, filter_matches_all.
  unfold apply_limit.
  assert (Hlim : (size =? 0) = false) by (apply Z.eqb_neq; lia).
  rewrite Hlim, skipn_map, firstn_map.
  now rewrite Zabs2Nat.abs_nat_nonneg by lia.
Qed.

Lemma page_records_ok size books page :
  1 <= page -> 1 <= size ->
  page_records size books page =
  firstn (Z.to_nat size)
    (skipn (Z.to_nat ((page - 1) * size)) (sorted_projection books)).
Proof.
  intros Hpage Hsize. unfold page_records.
  now rewrite paginate_ok.
Qed.

Lemma page_records_length size books page :
  1 <= page -> 1 <= size ->
  Z.of_nat (length (page_records size books page)) =
  Z.max 0 (Z.min size (Z.of_nat (length books) - (page - 1) * size)).
Proof.
  intros Hpage Hsize. rewrite page_records_ok by assumption.
  rewrite length_firstn, length_skipn, sorted_projection_length.
  assert (0 <= (page - 1) * size) by nia. lia.
Qed.
End PaginationFacts.



(** C2, as the code has it.  When no two records have the same title,
    then for every page index k >= 1 and page size p >= 1, and whatever
    order the store gives to equal keys in each of the two queries, page k
    and page k + 1 are the two adjacent windows of p records of the
    title-sorted record set that start at offset (k - 1) * p: page k followed
    by page k + 1 is the segment of 2 p records from that offset (shorter at
    the end of the set), nothing lies between them, and no record is on
    both. *)
Theorem consecutive_pages_disjoint_contiguous
    (first second reference : StoreSort) (books : Collection) (k p : Z) :
  1 <= k -> 1 <= p -> NoDup (map title books) ->
  let full := sorted_projection (store := reference) books in
  let offset := Z.to_nat ((k - 1) * p) in
  let size := Z.to_nat p in
  exists page1 page2,
    paginate (store := first) p books k = Ok page1 /\
    paginate (store := second) p books (k + 1) = Ok page2 /\
    page1 = firstn size (skipn offset full) /\
    page2 = firstn size (skipn (offset + size) full) /\
    page1 ++ page2 = firstn (size + size) (skipn offset full) /\
    full = firstn offset full ++ page1 ++ page2 ++
           skipn (offset + size + size) full /\
    NoDup (page1 ++ page2) /\
    (forall r, In r page1 -> In r page2 -> False).
Proof.
  intros Hk Hp Hnd full offset size.
  assert (Ha : 0 <= (k - 1) * p) by nia.
  assert (Hnext : Z.to_nat ((k + 1 - 1) * p) = (offset + size)%nat).
  { subst offset size. rewrite <- Z2Nat.inj_add by lia. f_equal. ring. }
  exists (firstn size (skipn offset full)),
         (firstn size (skipn (offset + size) full)).
  assert (Hcat : firstn size (skipn offset full) ++
                 firstn size (skipn (offset + size) full) =
                 firstn (size + size) (skipn offset full)).
  { rewrite (firstn_add size size (skipn offset full)), skipn_skipn.
    now rewrite (Nat.add_comm size offset). }
  assert (Hfull : NoDup full).
  { apply (NoDup_map_inv tap_title).
    apply (Permutation_NoDup (l := map title books)); [|exact Hnd].
    subst full. unfold sorted_projection. rewrite map_map. simpl.
    apply Permutation_map, sortBy_perm. }
  assert (Hsplit : full = firstn offset full ++
                          firstn (size + size) (skipn offset full) ++
                          skipn (offset + size + size) full).
  { rewrite <- (firstn_skipn offset full) at 1. f_equal.
    rewrite <- (firstn_skipn (size + size) (skipn offset full)) at 1. f_equal.
    rewrite skipn_skipn. f_equal. lia. }
  assert (Hseg : NoDup (firstn (size + size) (skipn offset full))).
  { rewrite Hsplit in Hfull. apply NoDup_app_remove_l in Hfull.
    now apply NoDup_app_remove_r in Hfull. }
  split.
  { rewrite paginate_ok by assumption. fold offset size.
    now rewrite (sorted_projection_unique first reference). }
  split.
  { rewrite paginate_ok by lia. rewrite Hnext. fold size.
    now rewrite (sorted_projection_unique second reference). }
  split; [reflexivity|]. split; [reflexivity|]. split; [exact Hcat|].
  split.
  { rewrite (app_assoc (firstn size (skipn offset full))), Hcat. exact Hsplit. }
  split; [now rewrite Hcat|].
  intros r H1 H2. rewrite <- Hcat in Hseg.
  exact (NoDup_app_disjoint _ _ r Hseg H1 H2).
Qed.

Lemma sample_titles_distinct : NoDup (map title sample_books).
Proof.
  repeat constructor; simpl; intuition discriminate.
Defined.

Lemma consecutive_pages_disjoint_contiguous_witness :
  exists page1 page2,
    paginate (store := stable_store) 1 sample_books 1 = Ok page1 /\
    paginate (store := reversing_store) 1 sample_books 2 = Ok page2 /\
    page1 ++ page2 =
      [ mkTAP "Ashes of Dawn" "Peter Kamau" (1000 # 100);
        mkTAP "Rust and Roses" "Maria Njeri" (899 # 100) ].
Proof.
  destruct (consecutive_pages_disjoint_contiguous
              stable_store reversing_store stable_store sample_books 1 1)
    as (page1 & page2 & H1 & H2 & _ & _ & H5 & _);
    [lia | lia | exact sample_titles_distinct |].
  exists page1, page2. repeat split; assumption.
Defined.

(** C2, as the spec words it, fails when two records share a title: the
    store may order them one way for the query of page 1 and the other way
    for the query of page 2, and then the same record is on both pages and
    the other record on neither. *)
Lemma pages_overlap_on_equal_titles :
  paginate (store := stable_store) 1 two_books_one_title 1 =
    Ok [ mkTAP "B" "first author" (10 # 1) ] /\
  paginate (store := reversing_store) 1 two_books_one_title 2 =
    Ok [ mkTAP "B" "first author" (10 # 1) ].
Proof.
  split; reflexivity.
Qed.

(** ** Counting pages *)

Lemma filter_map_length {A B} (P : B -> bool) (f : A -> B) (l : list A) :
  length (filter P (map f l)) = length (filter (fun x => P (f x)) l).
Proof.
  induction l as [|x r IH]; simpl; [reflexivity|].
  destruct (P (f x)); simpl; now rewrite IH.
Qed.

(** A predicate that holds exactly up to [m] holds [m] times on [1 .. count]
    (or [count] times, when [count] is smaller). *)
Lemma count_threshold (P : nat -> bool) (m count : nat) :
  (forall k, (1 <= k <= count)%nat -> P k = (k <=? m)%nat) ->
  length (filter P (seq 1 count)) = Nat.min m count.
Proof.
  induction count as [|c IH]; intros HP; [now rewrite Nat.min_0_r|].
  rewrite seq_S, filter_app, length_app, IH by (intros k Hk; apply HP; lia).
  simpl. rewrite (HP (S c)) by lia.
  destruct (Nat.leb_spec (S c) m); simpl; lia.
Qed.

Lemma ceil_div_spec (n p k : Z) :
  1 <= p -> ((k - 1) * p < n <-> k <= ceil_div n p).
Proof.
  intros Hp. unfold ceil_div.
  pose proof (Z.div_mod (n + p - 1) p ltac:(lia)) as Hdm.
  pose proof (Z.mod_pos_bound (n + p - 1) p ltac:(lia)) as Hb.
  split; intros H; nia.
Qed.

Lemma floor_div_spec (n p k : Z) :
  1 <= p -> (k * p <= n <-> k <= n / p).
Proof.
  intros Hp.
  pose proof (Z.div_mod n p ltac:(lia)) as Hdm.
  pose proof (Z.mod_pos_bound n p ltac:(lia)) as Hb.
  split; intros H; nia.
Qed.

Section PageCounts.
Context {store : StoreSort}.
Variables (books : Collection) (p : Z).
Hypothesis Hp : 1 <= p.

Let n : Z := Z.of_nat (length books).

Lemma page_nonempty_iff (k : nat) :
  (1 <= k)%nat ->
  negb (Nat.eqb (length (page_records p books (Z.of_nat k))) 0) =
  (k <=? Z.to_nat (ceil_div n p))%nat.
Proof.
  intros Hk.
  pose proof (page_records_length p books (Z.of_nat k) ltac:(lia) Hp) as Hlen.
  pose proof (ceil_div_spec n p (Z.of_nat k) Hp) as Hc. fold n in Hlen.
  destruct (Nat.leb_spec k (Z.to_nat (ceil_div n p))) as [Hle|Hgt].
  - apply negb_true_iff, Nat.eqb_neq. lia.
  - apply negb_false_iff, Nat.eqb_eq.
    assert (0 <= ceil_div n p)
      by (apply Z.div_pos; subst n; lia).
    lia.
Qed.

Lemma page_full_iff (k : nat) :
  (1 <= k)%nat ->
  (Z.of_nat (length (page_records p books (Z.of_nat k))) =? p) =
  (k <=? Z.to_nat (n / p))%nat.
Proof.
  intros Hk.
  pose proof (page_records_length p books (Z.of_nat k) ltac:(lia) Hp) as Hlen.
  pose proof (floor_div_spec n p (Z.of_nat k) Hp) as Hc. fold n in Hlen.
  assert (0 <= n / p) by (apply Z.div_pos; subst n; lia).
  destruct (Nat.leb_spec k (Z.to_nat (n / p))) as [Hle|Hgt].
  - apply Z.eqb_eq. lia.
  - apply Z.eqb_neq. lia.
Qed.

Lemma pages_upto_concat (count : nat) :
  concat (pages_upto p books count) =
  firstn (count * Z.to_nat p) (sorted_projection books).
Proof.
  unfold pages_upto.
  induction count as [|c IH]; [reflexivity|].
  rewrite seq_S, map_app, concat_app, IH. cbn [map concat].
  rewrite app_nil_r, page_records_ok by lia.
  replace (Z.to_nat ((Z.of_nat (1 + c) - 1) * p)) with (c * Z.to_nat p)%nat.
  2: { rewrite <- (Nat2Z.id c) at 1.
       rewrite <- Z2Nat.inj_mul by lia. f_equal. lia. }
  replace (S c * Z.to_nat p)%nat with (c * Z.to_nat p + Z.to_nat p)%nat by lia.
  now rewrite firstn_add.
Qed.
End PageCounts.

(** C3, as the code has it.  For every page size p >= 1 and every record
    count n, the pages that hold at least one record are pages
    1 .. ceil(n / p), so there are ceil(n / p) of them; the pages that hold
    exactly p records are pages 1 .. floor(n / p); and the lengths of all
    pages add up to n, the pages in order being the title-sorted record
    set.  Pages are counted among 1 .. count, for any count that reaches
    ceil(n / p). *)
Theorem pages_partition_record_set {store : StoreSort}
    (books : Collection) (p : Z) (count : nat) :
  1 <= p ->
  ceil_div (Z.of_nat (length books)) p <= Z.of_nat count ->
  Z.of_nat (nonempty_pages p books count) = ceil_div (Z.of_nat (length books)) p /\
  Z.of_nat (full_pages p books count) = Z.of_nat (length books) / p /\
  list_sum (map (@length TitleAuthorPrice) (pages_upto p books count)) =
    length books /\
  concat (pages_upto p books count) = sorted_projection books.
Proof.
  intros Hp Hcount.
  set (n := Z.of_nat (length books)) in *.
  assert (Hceil : 0 <= ceil_div n p) by (apply Z.div_pos; subst n; lia).
  assert (Hfloor : 0 <= n / p) by (apply Z.div_pos; subst n; lia).
  assert (Hfc : n / p <= ceil_div n p)
    by (apply Z.div_le_mono; lia).
  assert (Hcover : (length books <= count * Z.to_nat p)%nat).
  { pose proof (ceil_div_spec n p (ceil_div n p + 1) Hp) as Hc.
    apply Nat2Z.inj_le. rewrite Nat2Z.inj_mul, Z2Nat.id by lia.
    fold n. nia. }
  assert (Hcat : concat (pages_upto p books count) = sorted_projection books).
  { rewrite pages_upto_concat by exact Hp.
    apply firstn_all2. now rewrite sorted_projection_length. }
  split; [|split; [|split]].
  - unfold nonempty_pages, pages_upto.
    rewrite filter_map_length.
    rewrite (count_threshold _ (Z.to_nat (ceil_div n p)))
      by (intros k Hk; apply page_nonempty_iff; [exact Hp | lia]).
    lia.
  - unfold full_pages, pages_upto.
    rewrite filter_map_length.
    rewrite (count_threshold _ (Z.to_nat (n / p)))
      by (intros k Hk; apply page_full_iff; [exact Hp | lia]).
    lia.
  - rewrite <- length_concat, Hcat. apply sorted_projection_length.
  - exact Hcat.
Qed.

Lemma pages_partition_record_set_witness :
  Z.of_nat (nonempty_pages (store := stable_store) 5 six_books 6) = 2 /\
  Z.of_nat (full_pages (store := stable_store) 5 six_books 6) = 1 /\
  list_sum (map (@length TitleAuthorPrice)
              (pages_upto (store := stable_store) 5 six_books 6)) = 6%nat.
Proof.
  destruct (pages_partition_record_set (store := stable_store) six_books 5 6)
    as (H1 & H2 & H3 & _); [lia | vm_compute; discriminate |].
  repeat split; assumption.
Defined.

(** C3, as the spec words it, fails: six records in pages of five give one
    page of five records and one page of one record, so one full page,
    while ceil(6 / 5) = 2. *)
Lemma full_pages_differ_from_ceil :
  full_pages (store := stable_store) pageSize six_books 6 = 1%nat /\
  ceil_div (Z.of_nat (length six_books)) pageSize = 2 /\
  Z.of_nat (full_pages (store := stable_store) pageSize six_books 6) <>
  ceil_div (Z.of_nat (length six_books)) pageSize.
Proof.
  repeat split; vm_compute; congruence.
Qed.

(** ** The helper as the script defines it *)

(** Below page 1 the offset is negative and the store refuses the query. *)
Lemma showPage_below_first_page {store : StoreSort} (books : Collection) (page : Z) :
  page < 1 ->
  showPage books page = StoreError "skip value must be non-negative".
Proof.
  intros Hpage. unfold showPage, paginate, toArray, pageCursor, pageSize; simpl.
  assert (Hskip : ((page - 1) * 5 <? 0) = true) by (apply Z.ltb_lt; lia).
  now rewrite Hskip.
Qed.

(** C9.  The page size of the helper is the constant 5 of the script, not
    an argument: [showPage] takes the collection and the page number only,
    it is the helper body at page size 5, the limit it hands to the store is
    5 for every page number, and whenever it returns a sequence that
    sequence has at most 5 records (it returns none only below page 1,
    where the store refuses the offset). *)
Theorem showPage_page_size_is_five {store : StoreSort}
    (books : Collection) (page : Z) :
  pageSize = 5 /\
  showPage books page = paginate 5 books page /\
  cur_limit (pageCursor pageSize page) = 5 /\
  match showPage books page with
  | Ok records => (length records <= 5)%nat
  | StoreError _ => page < 1
  end.
Proof.
  split; [reflexivity|]. split; [reflexivity|]. split; [reflexivity|].
  destruct (Z.lt_ge_cases page 1) as [Hlt|Hge].
  - now rewrite showPage_below_first_page.
  - unfold showPage, pageSize. rewrite paginate_ok by lia.
    rewrite length_firstn. apply Nat.le_min_l.
Qed.

(** ** Update and delete *)

Lemma findByTitle_filter {store : StoreSort} (t : string) (books : Collection) :
  findByTitle t books = Ok (filter (matches (FTitle t)) books).
Proof.
  unfold findByTitle, toArray, apply_limit; simpl. now rewrite map_id.
Qed.

Lemma filter_none {A} (f : A -> bool) (l : list A) :
  Forall (fun x => f x = false) l -> filter f l = [].
Proof.
  induction 1 as [|x r Hx _ IH]; simpl; [reflexivity | now rewrite Hx].
Qed.

Lemma first_match_or_none (f : Filter) (books : Collection) :
  Forall (fun x => matches f x = false) books \/
  exists before b after, first_match f books before b after.
Proof.
  induction books as [|x r [IH|(before & b & after & IH)]].
  - left. constructor.
  - destruct (matches f x) eqn:E.
    + right. exists [], x, r. now apply (FirstMatch f []).
    + left. now constructor.
  - destruct (matches f x) eqn:E.
    + right. exists [], x, r. now apply (FirstMatch f []).
    + right. exists (x :: before), b, after. inversion IH; subst.
      apply (FirstMatch f (x :: before)); [now constructor | assumption].
Qed.

Lemma updateOne_no_match f u books :
  Forall (fun x => matches f x = false) books ->
  updateOne f u books = (books, mkUpdateResult 0 0).
Proof.
  induction 1 as [|x r Hx _ IH]; simpl; [reflexivity|].
  now rewrite Hx, IH.
Qed.

Lemma updateOne_first_match f u before b after :
  Forall (fun x => matches f x = false) before ->
  matches f b = true ->
  updateOne f u (before ++ b :: after) =
  (before ++ apply_update u b :: after,
   mkUpdateResult 1 (if changes u b then 1 else 0)).
Proof.
  induction 1 as [|x r Hx _ IH]; simpl; intros Hb.
  - now rewrite Hb.
  - now rewrite Hx, IH.
Qed.

Lemma deleteOne_no_match f books :
  Forall (fun x => matches f x = false) books ->
  deleteOne f books = (books, 0%nat).
Proof.
  induction 1 as [|x r Hx _ IH]; simpl; [reflexivity|].
  now rewrite Hx, IH.
Qed.

Lemma deleteOne_first_match f before b after :
  Forall (fun x => matches f x = false) before ->
  matches f b = true ->
  deleteOne f (before ++ b :: after) = (before ++ after, 1%nat).
Proof.
  induction 1 as [|x r Hx _ IH]; simpl; intros Hb.
  - now rewrite Hb.
  - now rewrite Hx, IH.
Qed.

(** C7.  For every title and every new price (positive or not),
    [updatePrice] either finds no record with the title and then leaves the
    collection as it is, with modified count 0, or it rewrites the first
    record with the title, in place: that record keeps every field but
    [price], which becomes the new price, every other record is unchanged,
    no record is added, and the modified count is 0 or 1.  A lookup of the
    title afterwards shows the updated record, with the new price, first. *)
Theorem updatePrice_sets_first_match_only {store : StoreSort}
    (t : string) (newPrice : Q) (books : Collection) :
  let books' := fst (updatePrice t newPrice books) in
  let r := snd (updatePrice t newPrice books) in
  (modifiedCount r = 0 \/ modifiedCount r = 1)%nat /\
  length books' = length books /\
  ((Forall (fun b => title b <> t) books /\
    books' = books /\ matchedCount r = 0%nat /\ modifiedCount r = 0%nat /\
    findByTitle t books' = Ok [])
   \/
   (exists before b after,
       books = before ++ b :: after /\
       Forall (fun x => title x <> t) before /\
       title b = t /\
       let b' := mkBook (_id b) (title b) (author b) (genre b)
                        (published_year b) newPrice (in_stock b) in
       books' = before ++ b' :: after /\
       matchedCount r = 1%nat /\
       modifiedCount r = (if Qeq_bool (price b) newPrice then 0 else 1)%nat /\
       findByTitle t books' =
         Ok (b' :: filter (matches (FTitle t)) after))).
Proof.
  unfold updatePrice.
  assert (Hneq : forall l, Forall (fun x => matches (FTitle t) x = false) l ->
                           Forall (fun x => title x <> t) l).
  { intros l. apply Forall_impl. intros x. apply String.eqb_neq. }
  destruct (first_match_or_none (FTitle t) books)
    as [Hnone|(before & b & after & Hfm)].
  - rewrite updateOne_no_match by exact Hnone. simpl.
    split; [now left|]. split; [reflexivity|]. left.
    repeat split; try reflexivity; [now apply Hneq|].
    rewrite findByTitle_filter. now rewrite filter_none.
  - destruct Hfm as [before b after Hbefore Hb].
    rewrite updateOne_first_match by assumption. simpl.
    split; [destruct (Qeq_bool (price b) newPrice); simpl; tauto|].
    split; [now rewrite !length_app|]. right.
    exists before, b, after.
    split; [reflexivity|]. split; [now apply Hneq|].
    split; [now apply String.eqb_eq|].
    split; [reflexivity|]. split; [reflexivity|].
    split; [now destruct (Qeq_bool (price b) newPrice)|].
    rewrite findByTitle_filter, filter_app, filter_none by exact Hbefore.
    simpl in *. now rewrite Hb.
Qed.

(** C8, as the code has it.  For every title, [deleteByTitle] removes the
    first record with the title, if there is one, and nothing else; the
    removed count is 0 or 1 and the collection shrinks by exactly that
    count, which is 0 exactly when no record had the title.  A lookup of the
    title afterwards yields the records that had it before, without the
    first: the empty sequence whenever at most one record had the title. *)
Theorem deleteByTitle_removes_first_match {store : StoreSort}
    (t : string) (books : Collection) :
  let books' := fst (deleteByTitle t books) in
  let removed := snd (deleteByTitle t books) in
  (removed = 0 \/ removed = 1)%nat /\
  (length books = length books' + removed)%nat /\
  (removed = 0%nat <-> Forall (fun b => title b <> t) books) /\
  (removed = 0%nat -> books' = books) /\
  (removed = 1%nat ->
   exists before b after,
     books = before ++ b :: after /\
     Forall (fun x => title x <> t) before /\
     title b = t /\
     books' = before ++ after) /\
  findByTitle t books' = Ok (tl (filter (matches (FTitle t)) books)) /\
  ((count_where (matches (FTitle t)) books <= 1)%nat ->
   findByTitle t books' = Ok []).
Proof.
  unfold deleteByTitle, count_where.
  assert (Hneq : forall l, Forall (fun x => matches (FTitle t) x = false) l ->
                           Forall (fun x => title x <> t) l).
  { intros l. apply Forall_impl. intros x. apply String.eqb_neq. }
  destruct (first_match_or_none (FTitle t) books)
    as [Hnone|(before & b & after & Hfm)].
  - rewrite deleteOne_no_match by exact Hnone. simpl.
    rewrite findByTitle_filter, filter_none by exact Hnone. simpl.
    repeat split; try tauto; try lia; try discriminate.
    intros _. now apply Hneq.
  - destruct Hfm as [before b after Hbefore Hb].
    rewrite deleteOne_first_match by assumption. simpl.
    rewrite findByTitle_filter, !filter_app, !filter_none by exact Hbefore.
    simpl in *. rewrite Hb. simpl.
    split; [now right|].
    split; [rewrite !length_app; simpl; lia|].
    split.
    { split; [discriminate|]. intros Hall. exfalso.
      rewrite Forall_forall in Hall.
      apply (Hall b); [apply in_or_app; right; now left|].
      now apply String.eqb_eq. }
    split; [discriminate|].
    split.
    { intros _. exists before, b, after.
      repeat split; [now apply Hneq | now apply String.eqb_eq]. }
    split; [reflexivity|].
    intros Hone. f_equal. apply length_zero_iff_nil. lia.
Qed.

(** C8, as the spec words it, fails when two records carry the title: one
    is removed and the lookup still finds the other. *)
Lemma deleteByTitle_lookup_not_empty :
  snd (deleteByTitle "B" two_books_one_title) = 1%nat /\
  findByTitle (store := stable_store) "B"
    (fst (deleteByTitle "B" two_books_one_title)) =
    Ok [mkBook 2 "B" "second author" "Drama" 2002 (20 # 1) true] /\
  findByTitle (store := stable_store) "B"
    (fst (deleteByTitle "B" two_books_one_title)) <> Ok [].
Proof.
  repeat split. vm_compute. discriminate.
Qed.

(** ** The [$group] stage *)

Lemma list_sum_cons (a : nat) (l : list nat) :
  list_sum (a :: l) = (a + list_sum l)%nat.
Proof. reflexivity. Qed.

Section GroupFacts.
Context {A K Row : Type}.
Variable eq_dec : forall x y : K, {x = y} + {x <> y}.
Variable key : A -> K.
Variable acc : K -> list A -> Row.
Variable row_key : Row -> K.
Hypothesis row_key_acc : forall k l, row_key (acc k l) = k.

Lemma group_keys docs :
  map row_key (group eq_dec key acc docs) = nodup eq_dec (map key docs).
Proof.
  unfold group. rewrite map_map.
  rewrite (map_ext _ (fun k => k)) by (intros k; apply row_key_acc).
  apply map_id.
Qed.

Lemma group_row docs r :
  In r (group eq_dec key acc docs) ->
  r = acc (row_key r) (filter (in_group eq_dec key (row_key r)) docs).
Proof.
  unfold group. intros Hin.
  apply in_map_iff in Hin as (k & <- & _). now rewrite row_key_acc.
Qed.

Lemma indicator_sum (a : K) (ks : list K) :
  NoDup ks -> In a ks ->
  list_sum (map (fun k => if eq_dec a k then 1 else 0)%nat ks) = 1%nat.
Proof.
  induction 1 as [|k r Hk Hnd IH]; simpl; [tauto|].
  intros [->|Hin].
  - destruct (eq_dec a a) as [_|Hne]; [|congruence].
    f_equal. clear IH Hnd. induction r as [|k' r' IHr]; [reflexivity|].
    simpl. destruct (eq_dec a k') as [->|_].
    + exfalso. apply Hk. now left.
    + apply IHr. intros Hin. apply Hk. now right.
  - destruct (eq_dec a k) as [->|_]; [tauto|]. now apply IH.
Qed.

Lemma group_sizes_sum (ks : list K) (docs : list A) :
  NoDup ks -> (forall x, In x docs -> In (key x) ks) ->
  list_sum (map (fun k => length (filter (in_group eq_dec key k) docs)) ks) =
  length docs.
Proof.
  intros Hnd. induction docs as [|x r IH]; intros Hks.
  - simpl. clear. induction ks as [|k ks' IHk]; [reflexivity | exact IHk].
  - assert (Hstep : forall ks',
               list_sum (map (fun k => length (filter (in_group eq_dec key k) (x :: r))) ks') =
               (list_sum (map (fun k => if eq_dec (key x) k then 1 else 0) ks') +
                list_sum (map (fun k => length (filter (in_group eq_dec key k) r)) ks'))%nat).
    { induction ks' as [|k ks' IHk]; [reflexivity|].
      cbn [map]. rewrite !list_sum_cons, IHk. cbn [filter].
      unfold in_group at 1.
      destruct (eq_dec (key x) k); simpl; lia. }
    rewrite Hstep, (indicator_sum (key x) ks Hnd) by (apply Hks; now left).
    rewrite IH by (intros y Hy; apply Hks; now right).
    reflexivity.
Qed.

(** What any reordering of the groups keeps. *)
Section Reordered.
Variables (docs : list A) (rows : list Row).
Hypothesis Hperm : Permutation (group eq_dec key acc docs) rows.

Lemma rows_keys_perm : Permutation (nodup eq_dec (map key docs)) (map row_key rows).
Proof. rewrite <- group_keys. now apply Permutation_map. Qed.

Lemma rows_keys_NoDup : NoDup (map row_key rows).
Proof.
  apply (Permutation_NoDup rows_keys_perm), NoDup_nodup.
Qed.

Lemma rows_keys_In k :
  In k (map row_key rows) <-> exists x, In x docs /\ key x = k.
Proof.
  split.
  - intros Hin.
    apply (Permutation_in _ (Permutation_sym rows_keys_perm)) in Hin.
    apply nodup_In, in_map_iff in Hin as (x & Hx & Hin). now exists x.
  - intros (x & Hin & <-).
    apply (Permutation_in _ rows_keys_perm), nodup_In.
    now apply in_map.
Qed.

Lemma rows_row r :
  In r rows ->
  r = acc (row_key r) (filter (in_group eq_dec key (row_key r)) docs).
Proof.
  intros Hin. apply group_row.
  now apply (Permutation_in _ (Permutation_sym Hperm)).
Qed.

Lemma rows_sizes_sum (size : Row -> nat) :
  (forall k l, size (acc k l) = length l) ->
  list_sum (map size rows) = length docs.
Proof.
  intros Hsize.
  rewrite <- (Permutation_list_sum (Permutation_map size Hperm)).
  unfold group. rewrite map_map.
  rewrite (map_ext _ (fun k => length (filter (in_group eq_dec key k) docs)))
    by (intros k; apply Hsize).
  apply group_sizes_sum; [apply NoDup_nodup|].
  intros x Hx. apply nodup_In. now apply in_map.
Qed.
End Reordered.
End GroupFacts.

(** ** Books per decade *)

Lemma decade_of_nonneg (year : Z) : 0 <= year -> decade_of year = 10 * (year / 10).
Proof.
  intros Hy. unfold decade_of, mod_.
  rewrite Z.rem_mod_nonneg by lia.
  pose proof (Z.div_mod year 10 ltac:(lia)). lia.
Qed.

Lemma sorted_distinct_ids_strict (rows : list ByDecade.row) :
  StronglySorted (holds ByDecade.id_asc) rows ->
  NoDup (map ByDecade._id rows) ->
  StronglySorted (fun r1 r2 => ByDecade._id r1 < ByDecade._id r2) rows.
Proof.
  induction 1 as [|x r Hr IH Hx]; intros Hnd; constructor;
    inversion Hnd as [|? ? Hnotin Hnd']; subst.
  - now apply IH.
  - rewrite Forall_forall in *. intros y Hy.
    specialize (Hx y Hy). unfold holds, ByDecade.id_asc in Hx.
    apply Z.leb_le in Hx.
    assert (ByDecade._id x <> ByDecade._id y).
    { intros E. apply Hnotin. rewrite E. now apply in_map. }
    lia.
Qed.

Lemma decade_group_size (k : Z) (books : Collection) :
  length (filter (in_group Z.eq_dec ByDecade.decade k) (map project_decade books)) =
  count_where (fun b => decade_of (published_year b) =? k) books.
Proof.
  unfold count_where. rewrite filter_map_length. f_equal.
  apply filter_ext. intros b. unfold in_group. simpl.
  destruct (Z.eq_dec (decade_of (published_year b)) k) as [E|E].
  - symmetry. now apply Z.eqb_eq.
  - symmetry. now apply Z.eqb_neq.
Qed.

(** C4.  [countByDecade] returns its rows sorted by decade, ascending and
    without repetition; the decades are exactly the values
    published_year - (published_year mod 10) of the records, so the decade
    of every record is the key of exactly one row; the count of a row is
    the number of records of that decade, and the counts add up to the
    number of records.  For a year that is not negative the decade is the
    year rounded down to a multiple of ten: 2015 gives 2010. *)
Theorem countByDecade_partitions_records {store : StoreSort} (books : Collection) :
  let rows := countByDecade books in
  StronglySorted (fun r1 r2 => ByDecade._id r1 < ByDecade._id r2) rows /\
  (forall d, In d (map ByDecade._id rows) <->
             exists b, In b books /\
                       published_year b - mod_ (published_year b) 10 = d) /\
  (forall b, In b books ->
             count_occ Z.eq_dec (map ByDecade._id rows)
                       (published_year b - mod_ (published_year b) 10) = 1%nat) /\
  (forall r, In r rows ->
             ByDecade.count r =
             count_where (fun b => decade_of (published_year b) =? ByDecade._id r)
                         books) /\
  list_sum (map ByDecade.count rows) = length books /\
  decade_of 2015 = 2010 /\
  (forall year, 0 <= year -> decade_of year = 10 * (year / 10)).
Proof.
  intros rows.
  set (acc := fun d (docs : list ByDecade.projected) => ByDecade.mk d (length docs)).
  assert (Hperm : Permutation
                    (group Z.eq_dec ByDecade.decade acc (map project_decade books))
                    rows) by apply sortBy_perm.
  assert (Hacc : forall k l, ByDecade._id (acc k l) = k) by reflexivity.
  assert (Hnd : NoDup (map ByDecade._id rows))
    by exact (rows_keys_NoDup Z.eq_dec _ acc ByDecade._id Hacc _ rows Hperm).
  assert (Hkeys : forall d, In d (map ByDecade._id rows) <->
                            exists b, In b books /\ decade_of (published_year b) = d).
  { intros d.
    rewrite (rows_keys_In Z.eq_dec _ acc ByDecade._id Hacc _ rows Hperm).
    split.
    - intros (x & Hx & Hd). apply in_map_iff in Hx as (b & <- & Hb).
      now exists b.
    - intros (b & Hb & Hd). exists (project_decade b).
      split; [now apply in_map | exact Hd]. }
  split.
  { apply sorted_distinct_ids_strict; [|exact Hnd].
    apply (sortBy_sorted _ ByDecade.id_asc id_asc_total id_asc_trans). }
  split; [exact Hkeys|].
  split.
  { intros b Hb. fold (decade_of (published_year b)).
    pose proof (proj1 (NoDup_count_occ Z.eq_dec _) Hnd
                      (decade_of (published_year b))) as Hle.
    assert (Hin : In (decade_of (published_year b)) (map ByDecade._id rows))
      by (apply Hkeys; now exists b).
    apply (count_occ_In Z.eq_dec) in Hin. lia. }
  split.
  { intros r Hr.
    rewrite (rows_row Z.eq_dec _ acc ByDecade._id Hacc _ rows Hperm r Hr) at 1.
    simpl. apply decade_group_size. }
  split.
  { rewrite (rows_sizes_sum Z.eq_dec _ acc _ rows Hperm ByDecade.count)
      by reflexivity.
    apply length_map. }
  split; [reflexivity | exact decade_of_nonneg].
Qed.

(** ** Rounding to binary64 *)

Section Rounding.
Local Open Scope Q_scope.

Lemma pow2_pos e : 0 < pow2 e.
Proof. apply Qpower_0_lt. reflexivity. Qed.

Lemma pow2_add a b : pow2 (a + b) == pow2 a * pow2 b.
Proof. apply Qpower_plus. discriminate. Qed.


Lemma pow2_lt_inv a b : pow2 a < pow2 b -> (a < b)%Z.
Proof. intros H. apply (Qpower_lt_compat_l_inv (2 # 1)); [exact H | reflexivity]. Qed.

Lemma pow2_inject (n : Z) : (0 <= n)%Z -> pow2 n == inject_Z (2 ^ n).
Proof. intros H. unfold pow2. now rewrite Zpower_Qpower. Qed.




Lemma nearest_even_integer (n : Z) (y : Q) : y == inject_Z n -> nearest_even y = n.
Proof.
  intros E. unfold nearest_even.
  assert (Hf : Qfloor y = n) by (rewrite E; apply Qfloor_Z).
  rewrite Hf.
  assert (Hc : (y - inject_Z n ?= 1 # 2) = Lt).
  { apply (proj1 (Qlt_alt _ _)). rewrite E. lra. }
  now rewrite Hc.
Qed.

Lemma Qmake_div (a : Z) (d : positive) : a # d == inject_Z a / inject_Z (Zpos d).
Proof. apply Qmake_Qdiv. Qed.

Lemma log2_bounds (a : Z) : (0 < a)%Z ->
  inject_Z (2 ^ Z.log2 a) <= inject_Z a /\ inject_Z a < inject_Z (2 ^ (Z.log2 a + 1)).
Proof.
  intros Ha. pose proof (Z.log2_spec a Ha) as [H1 H2].
  rewrite <- Zle_Qle, <- Zlt_Qlt. replace (Z.log2 a + 1)%Z with (Z.succ (Z.log2 a)) by lia.
  now split.
Qed.

Lemma floor_log2_spec (x : Q) :
  0 < x -> pow2 (floor_log2 x) <= x /\ x < pow2 (floor_log2 x + 1).
Proof.
  intros Hx. unfold floor_log2.
  destruct x as [a d]. cbn [Qnum Qden].
  assert (Ha : (0 < a)%Z) by (unfold Qlt in Hx; simpl in Hx; lia).
  set (la := Z.log2 a). set (ld := Z.log2 (Zpos d)).
  destruct (log2_bounds a Ha) as [A1 A2].
  destruct (log2_bounds (Zpos d) ltac:(lia)) as [D1 D2].
  fold la in A1, A2. fold ld in D1, D2.
  pose proof (Z.log2_nonneg a). pose proof (Z.log2_nonneg (Zpos d)).
  rewrite <- !pow2_inject in A1, A2, D1, D2 by (subst la ld; lia).
  assert (Hd : 0 < inject_Z (Zpos d)) by (change 0 with (inject_Z 0); rewrite <- Zlt_Qlt; lia).
  assert (Hlow : pow2 (la - ld - 1) <= a # d).
  { rewrite Qmake_div. apply Qle_shift_div_l; [exact Hd|].
    apply Qle_trans with (pow2 (la - ld - 1) * pow2 (ld + 1)).
    - apply Qmult_le_l; [apply pow2_pos | now apply Qlt_le_weak].
    - rewrite <- pow2_add. replace (la - ld - 1 + (ld + 1))%Z with la by lia. exact A1. }
  assert (Hhigh : a # d < pow2 (la - ld + 1)).
  { rewrite Qmake_div. apply Qlt_shift_div_r; [exact Hd|].
    apply Qlt_le_trans with (pow2 (la + 1)); [exact A2|].
    replace (la + 1)%Z with (la - ld + 1 + ld)%Z by lia. rewrite pow2_add.
    apply Qmult_le_l; [apply pow2_pos | exact D1]. }
  destruct (Qle_bool (pow2 (la - ld)) (a # d)) eqn:E.
  - apply Qle_bool_iff in E. split; assumption.
  - split; [exact Hlow|].
    replace (la - ld - 1 + 1)%Z with (la - ld)%Z by lia.
    apply Qnot_le_lt. intros Hc. apply Qle_bool_iff in Hc. congruence.
Qed.

Lemma round64_pos_unfold (x : Q) :
  round64_pos x =
  let v := inject_Z (nearest_even (x / pow2 (exponent x))) * pow2 (exponent x) in
  if Qle_bool v max_finite then Some (Qred v) else None.
Proof. reflexivity. Qed.




Lemma Qcompare_0 (x : Q) :
  match x ?= 0 with
  | Eq => x == 0
  | Lt => x < 0
  | Gt => 0 < x
  end.
Proof.
  destruct (x ?= 0) eqn:E.
  - now apply Qeq_alt.
  - now apply Qlt_alt.
  - now apply Qgt_alt.
Qed.



Lemma Qred_inject_Z (z : Z) : Qred (inject_Z z) = inject_Z z.
Proof.
  unfold Qred, inject_Z.
  pose proof (Z.ggcd_gcd z 1) as Hg. pose proof (Z.ggcd_correct_divisors z 1) as Hd.
  destruct (Z.ggcd z 1) as [g [a b]]. simpl in *.
  rewrite Z.gcd_1_r in Hg. subst g. destruct Hd as [Ha Hb].
  rewrite Z.mul_1_l in Ha, Hb. subst a b. reflexivity.
Qed.

Lemma pow2_le_inv a b : pow2 a <= pow2 b -> (a <= b)%Z.
Proof. intros H. apply (Qpower_le_compat_l_inv (2 # 1)); [exact H | reflexivity]. Qed.

Lemma pow2_opp e : pow2 (- e) == / pow2 e.
Proof. apply Qpower_opp. Qed.

Lemma max_finite_above_2_53 : inject_Z (2 ^ 53) <= max_finite.
Proof. apply Qle_bool_iff. vm_compute. reflexivity. Qed.

Lemma round64_pos_integer (z : Z) :
  (1 <= z <= 2 ^ 53)%Z -> round64_pos (inject_Z z) = Some (inject_Z z).
Proof.
  intros Hz.
  assert (Hx : 0 < inject_Z z) by (change 0 with (inject_Z 0); rewrite <- Zlt_Qlt; lia).
  destruct (floor_log2_spec _ Hx) as [Hl Hh].
  set (L := floor_log2 (inject_Z z)) in *.
  assert (HL0 : (0 <= L)%Z).
  { assert (-1 < L)%Z; [|lia].
    replace L with (L + 1 - 1)%Z by lia.
    assert (0 < L + 1)%Z; [|lia].
    apply pow2_lt_inv. eapply Qle_lt_trans; [|exact Hh].
    change (pow2 0) with (inject_Z 1). rewrite <- Zle_Qle. lia. }
  assert (HL53 : (L <= 53)%Z).
  { apply pow2_le_inv. eapply Qle_trans; [exact Hl|].
    rewrite pow2_inject by lia. rewrite <- Zle_Qle. lia. }
  destruct (Z.eq_dec L 53) as [E53|N53].
  - assert (z = 2 ^ 53)%Z.
    { rewrite E53, pow2_inject in Hl by lia. rewrite <- Zle_Qle in Hl. lia. }
    subst z. vm_compute. reflexivity.
  - rewrite round64_pos_unfold. cbv zeta.
    assert (He : exponent (inject_Z z) = (L - 52)%Z)
      by (unfold exponent; fold L; lia).
    rewrite He.
    assert (Hy : inject_Z z / pow2 (L - 52) == inject_Z (z * 2 ^ (52 - L))).
    { rewrite inject_Z_mult, <- pow2_inject by lia.
      replace (L - 52)%Z with (- (52 - L))%Z by lia. rewrite pow2_opp.
      field. pose proof (pow2_pos (52 - L)). lra. }
    rewrite (nearest_even_integer _ _ Hy).
    assert (Hw : inject_Z (z * 2 ^ (52 - L)) * pow2 (L - 52) == inject_Z z).
    { rewrite inject_Z_mult, <- pow2_inject by lia.
      rewrite <- Qmult_assoc, <- pow2_add.
      replace (52 - L + (L - 52))%Z with 0%Z by lia.
      change (pow2 0) with 1. ring. }
    assert (Hfin : Qle_bool (inject_Z (z * 2 ^ (52 - L)) * pow2 (L - 52)) max_finite = true).
    { apply Qle_bool_iff. rewrite Hw.
      eapply Qle_trans; [|apply max_finite_above_2_53].
      rewrite <- Zle_Qle. lia. }
    rewrite Hfin. f_equal.
    rewrite (Qred_complete _ _ Hw). apply Qred_inject_Z.
Qed.

Lemma round64_integer (z : Z) :
  (Z.abs z <= 2 ^ 53)%Z -> round64 (inject_Z z) = Num (inject_Z z).
Proof.
  intros Hz. unfold round64.
  pose proof (Qcompare_0 (inject_Z z)) as Hc.
  destruct (inject_Z z ?= 0).
  - f_equal. unfold Qeq in Hc. simpl in Hc.
    assert (z = 0)%Z by lia. now subst.
  - assert (Hneg : (z < 0)%Z) by (unfold Qlt in Hc; simpl in Hc; lia).
    change (- inject_Z z) with (inject_Z (- z)).
    rewrite round64_pos_integer by lia.
    f_equal. unfold inject_Z, Qopp. simpl. now rewrite Z.opp_involutive.
  - assert (Hpos : (0 < z)%Z) by (unfold Qlt in Hc; simpl in Hc; lia).
    now rewrite round64_pos_integer by lia.
Qed.

















End Rounding.

(** The rounding on known doubles. *)

Example round64_tenth : round64 (1 # 10) = Num tenth.
Proof. vm_compute. reflexivity. Qed.

Example round64_tie_to_even :
  round64 (inject_Z (2 ^ 53 + 1)) = Num (inject_Z (2 ^ 53)) /\
  round64 (inject_Z (2 ^ 53 + 3)) = Num (inject_Z (2 ^ 53 + 4)).
Proof. split; vm_compute; reflexivity. Qed.

Example round64_overflow :
  round64 (inject_Z (2 ^ 1024 - 2 ^ 970)) = Infinite false /\
  round64 (inject_Z (2 ^ 1024 - 2 ^ 970 - 1)) = Num max_finite.
Proof. split; vm_compute; reflexivity. Qed.

Example round64_subnormal :
  round64 (3 # 2 ^ 1076) = Num (1 # 2 ^ 1074) /\
  round64 (1 # 2 ^ 1075) = Num 0.
Proof. split; vm_compute; reflexivity. Qed.

(** ** The offset the helper computes *)

Lemma computed_skip_exact (page : Z) :
  Z.abs ((page - 1) * 5) <= 2 ^ 53 ->
  computed_skip page = Num (inject_Z ((page - 1) * 5)).
Proof.
  intros Hbound. unfold computed_skip, js_number, js_sub, js_mul.
  rewrite round64_integer by lia.
  change (inject_Z page - inject_Z 1)%Q with ((page * 1 + -1 * 1) # 1).
  replace (page * 1 + -1 * 1) with (page - 1) by lia.
  change ((page - 1) # 1) with (inject_Z (page - 1)).
  rewrite round64_integer by lia.
  change (inject_Z (page - 1) * inject_Z (Zpos (Z.to_pos pageSize)))%Q
    with (inject_Z ((page - 1) * 5)).
  now apply round64_integer.
Qed.

(** C10, as the code has it.  The helper validates nothing: for every
    integer page whose offset (page - 1) * 5 is within 2^53 in magnitude,
    page < 1 included, the offset computed in binary64 is exactly
    (page - 1) * 5, it is the skip of the cursor, and the call always reaches
    the store.  Page 0 sends the offset -5 and page -1 sends -10. *)
Theorem showPage_passes_offset_unchecked {store : StoreSort}
    (books : Collection) (page : Z) :
  Z.abs ((page - 1) * 5) <= 2 ^ 53 ->
  computed_skip page = Num (inject_Z ((page - 1) * 5)) /\
  computed_skip page = Num (inject_Z (cur_skip (pageCursor pageSize page))) /\
  showPage books page = toArray books (pageCursor pageSize page) /\
  computed_skip 0 = Num (inject_Z (-5)) /\
  computed_skip (-1) = Num (inject_Z (-10)).
Proof.
  intros Hbound.
  split; [now apply computed_skip_exact|].
  split; [now apply computed_skip_exact|].
  split; [reflexivity|].
  split; apply computed_skip_exact; simpl; lia.
Qed.

Lemma showPage_passes_offset_unchecked_witness :
  computed_skip 0 = Num (inject_Z (-5)) /\
  showPage (store := stable_store) six_books 0 =
    toArray six_books (pageCursor pageSize 0).
Proof.
  destruct (showPage_passes_offset_unchecked (store := stable_store) six_books 0)
    as (H1 & _ & H3 & _); [simpl; lia|].
  split; [exact H1 | exact H3].
Defined.

(** C10, as the spec words it, fails above 2^53: at page 1801439850948200
    the exact offset 9007199254740995 is no double, and the script sends the
    double next to it, 9007199254740996. *)
Lemma computed_skip_rounds_above_2_53 :
  computed_skip 1801439850948200 = Num (inject_Z 9007199254740996) /\
  (1801439850948200 - 1) * 5 = 9007199254740995 /\
  computed_skip 1801439850948200 <>
    Num (inject_Z ((1801439850948200 - 1) * 5)).
Proof.
  split; [vm_compute; reflexivity|].
  split; [reflexivity|].
  vm_compute. discriminate.
Qed.

(** ** Average price per genre, and the author with most books *)

Lemma StronglySorted_weaken {A} (R R' : A -> A -> Prop) (l : list A) :
  (forall x y, R x y -> R' x y) -> StronglySorted R l -> StronglySorted R' l.
Proof.
  intros HR. induction 1 as [|x r Hr IH Hx]; constructor; [exact IH|].
  eapply Forall_impl; [|exact Hx]. intros y. apply HR.
Qed.

Lemma in_group_string {A} (key : A -> string) (k : string) (x : A) :
  in_group string_dec key k x = String.eqb (key x) k.
Proof.
  unfold in_group. destruct (string_dec (key x) k) as [E|E].
  - symmetry. now apply String.eqb_eq.
  - symmetry. now apply String.eqb_neq.
Qed.

Lemma string_group_members {A} (key : A -> string) (k : string) (l : list A) :
  filter (in_group string_dec key k) l = filter (fun x => String.eqb (key x) k) l.
Proof. apply filter_ext. intros x. apply in_group_string. Qed.



(** C6.  [topAuthorByBookCount] answers with at most one row: none when
    the collection is empty, otherwise exactly one, for an author of the
    collection, whose count is the number of that author's records and is
    not exceeded by the number of records of any author. *)
Theorem topAuthorByBookCount_is_maximal {store : StoreSort} (books : Collection) :
  let rows := topAuthorByBookCount books in
  (length rows <= 1)%nat /\
  (books = [] -> rows = []) /\
  (books <> [] ->
   exists r,
     rows = [r] /\
     (exists b, In b books /\ author b = ByAuthor._id r) /\
     ByAuthor.count r =
       count_where (fun b => String.eqb (author b) (ByAuthor._id r)) books /\
     forall a,
       (count_where (fun b => String.eqb (author b) a) books <= ByAuthor.count r)%nat).
Proof.
  intros rows.
  set (acc := fun a (docs : list Book) => ByAuthor.mk a (length docs)).
  set (sorted := sortBy ByAuthor.count_desc (group string_dec author acc books)).
  assert (Hperm : Permutation (group string_dec author acc books) sorted)
    by apply sortBy_perm.
  assert (Hacc : forall k l, ByAuthor._id (acc k l) = k) by reflexivity.
  pose proof (rows_keys_In string_dec author acc ByAuthor._id Hacc books sorted Hperm)
    as Hkeys.
  assert (Hsorted : StronglySorted (holds ByAuthor.count_desc) sorted)
    by apply (sortBy_sorted _ _ count_desc_total count_desc_trans).
  assert (Hrows : rows = firstn 1 sorted) by reflexivity.
  assert (Hsize : forall r, In r sorted ->
            ByAuthor.count r =
            count_where (fun b => String.eqb (author b) (ByAuthor._id r)) books).
  { intros r Hr.
    rewrite (rows_row string_dec author acc ByAuthor._id Hacc books sorted Hperm r Hr)
      at 1.
    simpl. now rewrite string_group_members. }
  split; [rewrite Hrows; apply firstn_le_length|].
  split.
  { intros ->. rewrite Hrows.
    assert (Hnil : sorted = []) by (apply Permutation_nil; exact Hperm).
    now rewrite Hnil. }
  intros Hne.
  destruct sorted as [|r rest] eqn:Es.
  { exfalso. destruct books as [|b bs]; [now apply Hne|].
    assert (Hin : In (author b) (map ByAuthor._id []))
      by (apply Hkeys; exists b; split; [now left | reflexivity]).
    exact Hin. }
  exists r. split; [exact Hrows|].
  split.
  { apply Hkeys. now left. }
  split; [apply Hsize; now left|].
  intros a.
  destruct (in_dec string_dec a (map ByAuthor._id (r :: rest))) as [Hin|Hout].
  - apply in_map_iff in Hin as (ra & <- & Hra).
    rewrite <- (Hsize ra Hra).
    destruct Hra as [->|Hra]; [lia|].
    apply StronglySorted_inv in Hsorted as [_ Hall].
    rewrite Forall_forall in Hall. specialize (Hall ra Hra).
    unfold holds, ByAuthor.count_desc in Hall. now apply Nat.leb_le in Hall.
  - assert (Hzero : count_where (fun b => String.eqb (author b) a) books = 0%nat).
    { unfold count_where. rewrite filter_none; [reflexivity|].
      apply Forall_forall. intros b Hb.
      destruct (String.eqb (author b) a) eqn:E; [|reflexivity].
      exfalso. apply Hout, Hkeys. exists b.
      split; [exact Hb | now apply String.eqb_eq]. }
    rewrite Hzero. lia.
Qed.

(** ** The calls of the script, run on the sample collections *)

Example showPage_first_page :
  showPage (store := stable_store) six_books 1 =
  Ok [ mkTAP "A" "a3" (1 # 1); mkTAP "B" "a3" (2 # 1); mkTAP "C" "a2" (3 # 1);
       mkTAP "D" "a2" (4 # 1); mkTAP "E" "a1" (5 # 1) ].
Proof. reflexivity. Qed.

Example showPage_second_page :
  showPage (store := stable_store) six_books 2 = Ok [ mkTAP "F" "a1" (6 # 1) ].
Proof. reflexivity. Qed.

Example showPage_third_page :
  showPage (store := stable_store) six_books 3 = Ok [].
Proof. reflexivity. Qed.

Example showPage_page_zero :
  showPage (store := stable_store) six_books 0 =
  StoreError "skip value must be non-negative".
Proof. reflexivity. Qed.

Example update_silent_river_run :
  update_silent_river sample_books =
  ([ mkBook 1 "Rust and Roses" "Maria Njeri" "Romance" 2012 (899 # 100) true;
     mkBook 2 "The Silent River" "Maria Njeri" "Fantasy" 2018 (1499 # 100) true;
     mkBook 3 "Ashes of Dawn" "Peter Kamau" "Fantasy" 2005 (1000 # 100) false ],
   mkUpdateResult 1 1).
Proof. reflexivity. Qed.

Example delete_rust_and_roses_run :
  delete_rust_and_roses sample_books =
  ([ mkBook 2 "The Silent River" "Maria Njeri" "Fantasy" 2018 (1250 # 100) true;
     mkBook 3 "Ashes of Dawn" "Peter Kamau" "Fantasy" 2005 (1000 # 100) false ],
   1%nat).
Proof. reflexivity. Qed.

Example countByDecade_run :
  countByDecade (store := stable_store) sample_books =
  [ ByDecade.mk 2000 1; ByDecade.mk 2010 2 ].
Proof. reflexivity. Qed.

Example averagePriceByGenre_run :
  averagePriceByGenre (store := stable_store) six_books =
  [ ByGenre.mk "g1" (Num (11 # 2)) 2; ByGenre.mk "g2" (Num (7 # 2)) 2;
    ByGenre.mk "g3" (Num (3 # 2)) 2 ].
Proof. vm_compute. reflexivity. Qed.

Example topAuthorByBookCount_run :
  topAuthorByBookCount (store := stable_store) sample_books =
  [ ByAuthor.mk "Maria Njeri" 2 ].
Proof. reflexivity. Qed.

(* ================================================================== *)
(** * Further properties of the script *)

(** ** The find commands *)

Lemma toArray_find {store : StoreSort} {R} (f : Filter) (p : Book -> R)
    (books : Collection) :
  toArray books (find f p) = Ok (map p (filter (matches f) books)).
Proof. reflexivity. Qed.

Lemma toArray_sort_all {store : StoreSort} {R} (le : Book -> Book -> bool)
    (p : Book -> R) (books : Collection) :
  toArray books (sort le (find FAll p)) = Ok (map p (sortBy le books)).
Proof.
  unfold toArray, apply_limit; simpl. now rewrite filter_matches_all.
Qed.

Lemma filter_filter {A} (f g : A -> bool) (l : list A) :
  filter g (filter f l) = filter (fun x => f x && g x) l.
Proof.
  induction l as [|x r IH]; simpl; [reflexivity|].
  destruct (f x); simpl; [destruct (g x)|]; now rewrite IH.
Qed.


(** X2.  The bound of the published-after query is strict and the query is
    monotone in it: no record of the year itself is returned, and for
    y1 <= y2 the answer for y2 is the answer for y1 without the records
    published in y2 or before. *)
Theorem findPublishedAfter_strict_monotone {store : StoreSort}
    (y1 y2 : Z) (books : Collection) :
  y1 <= y2 ->
  exists l1 l2,
    findPublishedAfter y1 books = Ok l1 /\
    findPublishedAfter y2 books = Ok l2 /\
    l2 = filter (fun b => y2 <? published_year b) l1 /\
    (forall b, In b l2 <-> In b books /\ y2 < published_year b) /\
    (forall b, published_year b = y2 -> ~ In b l2).
Proof.
  intros Hy.
  exists (filter (matches (FYearGt y1)) books),
         (filter (matches (FYearGt y2)) books).
  unfold findPublishedAfter. rewrite !toArray_find, !map_id.
  split; [reflexivity|]. split; [reflexivity|].
  assert (Hin : forall b, In b (filter (matches (FYearGt y2)) books) <->
                          In b books /\ y2 < published_year b).
  { intros b. rewrite filter_In. simpl. now rewrite Z.ltb_lt. }
  split.
  - rewrite filter_filter. apply filter_ext. intros b. simpl.
    destruct (y2 <? published_year b) eqn:E2.
    + apply Z.ltb_lt in E2.
      assert (E1 : (y1 <? published_year b) = true) by (apply Z.ltb_lt; lia).
      now rewrite E1.
    + now rewrite andb_false_r.
  - split; [exact Hin|].
    intros b Hb Hin'. apply Hin in Hin'. lia.
Qed.

Lemma findPublishedAfter_strict_monotone_witness :
  exists l1 l2,
    findPublishedAfter (store := stable_store) 2005 sample_books = Ok l1 /\
    findPublishedAfter (store := stable_store) 2015 sample_books = Ok l2 /\
    l2 = filter (fun b => 2015 <? published_year b) l1.
Proof.
  destruct (findPublishedAfter_strict_monotone
              (store := stable_store) 2005 2015 sample_books)
    as (l1 & l2 & H1 & H2 & H3 & _); [lia|].
  now exists l1, l2.
Defined.

(** X3.  The in-stock-after query is the published-after query restricted
    to the records in stock, projected to title, author and year: every
    record it returns has a year after the bound, and a record out of stock
    is never returned. *)
Theorem findInStockAfterYear_refines_publishedAfter {store : StoreSort}
    (y : Z) (books : Collection) :
  exists l,
    findPublishedAfter y books = Ok l /\
    findInStockAfterYear y books =
      Ok (map title_author_year (filter in_stock l)) /\
    (forall r, In r (records (findInStockAfterYear y books)) ->
               y < tay_published_year r) /\
    (forall r, In r (records (findInStockAfterYear y books)) <->
               exists b, In b books /\ in_stock b = true /\
                         y < published_year b /\ r = title_author_year b).
Proof.
  exists (filter (matches (FYearGt y)) books).
  unfold findPublishedAfter, findInStockAfterYear.
  rewrite !toArray_find, map_id, filter_filter.
  assert (Hext : filter (matches (FInStockYearGt y)) books =
                 filter (fun b => matches (FYearGt y) b && in_stock b) books)
    by (apply filter_ext; intros b; simpl; apply andb_comm).
  rewrite <- Hext. simpl records.
  assert (Hin : forall r,
             In r (map title_author_year (filter (matches (FInStockYearGt y)) books)) <->
             exists b, In b books /\ in_stock b = true /\
                       y < published_year b /\ r = title_author_year b).
  { intros r. rewrite in_map_iff. split.
    - intros (b & <- & Hb). apply filter_In in Hb as [Hb Hm].
      simpl in Hm. apply andb_true_iff in Hm as [Hs Hy].
      apply Z.ltb_lt in Hy. now exists b.
    - intros (b & Hb & Hs & Hy & ->). exists b. split; [reflexivity|].
      apply filter_In. split; [exact Hb|]. simpl.
      apply andb_true_iff. split; [exact Hs | now apply Z.ltb_lt]. }
  split; [reflexivity|]. split; [reflexivity|]. split; [|exact Hin].
  intros r Hr. apply Hin in Hr as (b & _ & _ & Hy & ->). exact Hy.
Qed.

(** ** Sorting by price *)

Lemma by_price_asc_total : total_leb by_price_asc.
Proof.
  intros x y. unfold by_price_asc. rewrite !Qle_bool_iff.
  destruct (Qlt_le_dec (price y) (price x)) as [H|H].
  - right. now apply Qlt_le_weak.
  - now left.
Qed.

Lemma by_price_asc_trans : transitive_leb by_price_asc.
Proof.
  intros x y z. unfold by_price_asc. rewrite !Qle_bool_iff.
  intros Hxy Hyz. eapply Qle_trans; eassumption.
Qed.

Lemma by_price_desc_total : total_leb by_price_desc.
Proof. intros x y. destruct (by_price_asc_total x y); [right | left]; assumption. Qed.

Lemma by_price_desc_trans : transitive_leb by_price_desc.
Proof. intros x y z Hxy Hyz. exact (by_price_asc_trans z y x Hyz Hxy). Qed.

(** X4.  Both price sorts return the title and price of every record, each
    record once, ascending resp. descending by price; the ascending list
    starts with a cheapest record and the descending list with a dearest. *)
Theorem sortByPrice_sorted_permutation {store : StoreSort} (books : Collection) :
  exists asc desc,
    sortByPriceAsc books = Ok asc /\
    sortByPriceDesc books = Ok desc /\
    Permutation (map title_price books) asc /\
    Permutation (map title_price books) desc /\
    StronglySorted (fun r1 r2 => (tp_price r1 <= tp_price r2)%Q) asc /\
    StronglySorted (fun r1 r2 => (tp_price r2 <= tp_price r1)%Q) desc /\
    (forall r b, hd_error asc = Some r -> In b books ->
                 (tp_price r <= price b)%Q) /\
    (forall r b, hd_error desc = Some r -> In b books ->
                 (price b <= tp_price r)%Q).
Proof.
  exists (map title_price (sortBy by_price_asc books)),
         (map title_price (sortBy by_price_desc books)).
  unfold sortByPriceAsc, sortByPriceDesc. rewrite !toArray_sort_all.
  assert (Hasc : StronglySorted (fun r1 r2 => (tp_price r1 <= tp_price r2)%Q)
                   (map title_price (sortBy by_price_asc books))).
  { apply StronglySorted_map.
    apply (StronglySorted_weaken (holds by_price_asc)).
    - intros x y. unfold holds, by_price_asc. apply Qle_bool_iff.
    - apply (sortBy_sorted _ _ by_price_asc_total by_price_asc_trans). }
  assert (Hdesc : StronglySorted (fun r1 r2 => (tp_price r2 <= tp_price r1)%Q)
                    (map title_price (sortBy by_price_desc books))).
  { apply StronglySorted_map.
    apply (StronglySorted_weaken (holds by_price_desc)).
    - intros x y. unfold holds, by_price_desc. apply Qle_bool_iff.
    - apply (sortBy_sorted _ _ by_price_desc_total by_price_desc_trans). }
  pose proof (Permutation_map title_price (sortBy_perm _ by_price_asc books)) as Pasc.
  pose proof (Permutation_map title_price (sortBy_perm _ by_price_desc books)) as Pdesc.
  repeat split; try assumption.
  - intros r b Hhd Hb.
    assert (Hin : In (title_price b) (map title_price (sortBy by_price_asc books)))
      by (apply (Permutation_in _ Pasc); now apply in_map).
    destruct (map title_price (sortBy by_price_asc books)) as [|r0 rest];
      [discriminate|].
    injection Hhd as ->. apply StronglySorted_inv in Hasc as [_ Hall].
    destruct Hin as [->|Hin]; [apply Qle_refl|].
    rewrite Forall_forall in Hall. exact (Hall _ Hin).
  - intros r b Hhd Hb.
    assert (Hin : In (title_price b) (map title_price (sortBy by_price_desc books)))
      by (apply (Permutation_in _ Pdesc); now apply in_map).
    destruct (map title_price (sortBy by_price_desc books)) as [|r0 rest];
      [discriminate|].
    injection Hhd as ->. apply StronglySorted_inv in Hdesc as [_ Hall].
    destruct Hin as [->|Hin]; [apply Qle_refl|].
    rewrite Forall_forall in Hall. exact (Hall _ Hin).
Qed.

(** X5.  When no two different records have the same price, the descending
    price sort is the ascending one read backwards, whatever order the
    store gives to equal keys. *)
Theorem sortByPriceDesc_reverses_asc {store : StoreSort} (books : Collection) :
  (forall b1 b2, In b1 books -> In b2 books ->
                 (price b1 == price b2)%Q -> b1 = b2) ->
  exists asc,
    sortByPriceAsc books = Ok asc /\
    sortByPriceDesc books = Ok (rev asc).
Proof.
  intros Hdistinct.
  exists (map title_price (sortBy by_price_asc books)).
  unfold sortByPriceAsc, sortByPriceDesc. rewrite !toArray_sort_all.
  split; [reflexivity|]. f_equal. rewrite <- map_rev. f_equal.
  pose proof (sortBy_perm _ by_price_asc books) as Pasc.
  pose proof (sortBy_perm _ by_price_desc books) as Pdesc.
  apply (sorted_permutation_unique (holds by_price_desc)).
  - intros x y Hx Hy Hxy Hyx.
    apply (Permutation_in _ (Permutation_sym Pdesc)) in Hx, Hy.
    apply Hdistinct; try assumption.
    unfold holds, by_price_desc in Hxy, Hyx.
    apply Qle_bool_iff in Hxy, Hyx. now apply Qle_antisym.
  - apply (sortBy_sorted _ _ by_price_desc_total by_price_desc_trans).
  - apply (StronglySorted_rev (holds by_price_asc)).
    apply (sortBy_sorted _ _ by_price_asc_total by_price_asc_trans).
  - eapply perm_trans; [apply Permutation_sym, Pdesc|].
    eapply perm_trans; [apply Pasc|]. apply Permutation_rev.
Qed.

Lemma sample_prices_distinct :
  forall b1 b2, In b1 sample_books -> In b2 sample_books ->
                (price b1 == price b2)%Q -> b1 = b2.
Proof.
  intros b1 b2 H1 H2.
  repeat (destruct H1 as [<-|H1]; [|]); try contradiction;
    repeat (destruct H2 as [<-|H2]; [|]); try contradiction;
    intros E; try reflexivity; vm_compute in E; discriminate.
Defined.

Lemma sortByPriceDesc_reverses_asc_witness :
  exists asc,
    sortByPriceAsc (store := stable_store) sample_books = Ok asc /\
    sortByPriceDesc (store := stable_store) sample_books = Ok (rev asc).
Proof.
  exact (sortByPriceDesc_reverses_asc (store := stable_store) sample_books
           sample_prices_distinct).
Defined.

(** ** More on the pages *)

Lemma In_firstn {A} (n : nat) (l : list A) x : In x (firstn n l) -> In x l.
Proof.
  intros H. rewrite <- (firstn_skipn n l). apply in_or_app. now left.
Qed.

Lemma In_skipn {A} (n : nat) (l : list A) x : In x (skipn n l) -> In x l.
Proof.
  intros H. rewrite <- (firstn_skipn n l). apply in_or_app. now right.
Qed.

Lemma StronglySorted_app_cross {A} (R : A -> A -> Prop) (l1 l2 : list A) :
  StronglySorted R (l1 ++ l2) ->
  forall x y, In x l1 -> In y l2 -> R x y.
Proof.
  induction l1 as [|a r IH]; simpl; intros Hs x y Hx Hy; [contradiction|].
  apply StronglySorted_inv in Hs as [Hs Ha].
  destruct Hx as [->|Hx].
  - rewrite Forall_forall in Ha. apply Ha, in_or_app. now right.
  - now apply IH.
Qed.

Lemma showPage_records {store : StoreSort} (books : Collection) (k : Z) :
  1 <= k ->
  records (showPage books k) =
  firstn 5 (skipn (Z.to_nat ((k - 1) * 5)) (sorted_projection books)).
Proof.
  intros Hk. unfold showPage, pageSize. now rewrite paginate_ok by lia.
Qed.

Lemma window_rank {A} (l : list A) (i : nat) :
  nth_error (firstn 5 (skipn (5 * (i / 5)) l)) (i mod 5) = nth_error l i.
Proof.
  rewrite nth_error_firstn, nth_error_skipn.
  pose proof (Nat.mod_upper_bound i 5 ltac:(lia)) as Hlt.
  apply Nat.ltb_lt in Hlt. rewrite Hlt.
  now rewrite <- Nat.div_mod_eq.
Qed.

Lemma showPage_titles (query reference : StoreSort) (books : Collection) (k : Z) :
  1 <= k ->
  map tap_title (records (showPage (store := query) books k)) =
  firstn 5 (skipn (Z.to_nat ((k - 1) * 5))
                  (map tap_title (sorted_projection (store := reference) books))).
Proof.
  intros Hk. rewrite showPage_records by exact Hk.
  rewrite <- firstn_map, <- skipn_map.
  now rewrite (sorted_projection_titles query reference).
Qed.

(** X6.  The two pages the script prints, page 1 followed by page 2, show
    the first ten titles of the title-sorted record set, min(10, n) records
    in all, whatever order the store gives to equal titles in each of the
    two queries.  When no two records have the same title they are the first
    ten records of that set, every record of the collection once if it has
    at most ten. *)
Theorem showPage_first_two_pages
    (first second reference : StoreSort) (books : Collection) :
  let shown := records (showPage (store := first) books 1) ++
               records (showPage (store := second) books 2) in
  let full := sorted_projection (store := reference) books in
  map tap_title shown = firstn 10 (map tap_title full) /\
  length shown = Nat.min 10 (length books) /\
  (NoDup (map title books) ->
   shown = firstn 10 full /\
   ((length books <= 10)%nat ->
    Permutation (map title_author_price books) shown)).
Proof.
  intros shown full.
  split.
  { unfold shown. rewrite map_app.
    rewrite (showPage_titles first reference), (showPage_titles second reference)
      by lia.
    simpl Z.to_nat. change (Pos.to_nat 5) with 5%nat. rewrite skipn_0.
    symmetry. exact (firstn_add 5 5 _). }
  split.
  { unfold shown. rewrite !showPage_records by lia.
    simpl Z.to_nat. change (Pos.to_nat 5) with 5%nat.
    rewrite length_app, !length_firstn, !length_skipn, !sorted_projection_length.
    lia. }
  intros Hnd.
  assert (Hshown : shown = firstn 10 full).
  { unfold shown. rewrite !showPage_records by lia.
    rewrite (sorted_projection_unique first reference),
            (sorted_projection_unique second reference) by exact Hnd.
    simpl Z.to_nat. change (Pos.to_nat 5) with 5%nat. rewrite skipn_0.
    symmetry. exact (firstn_add 5 5 _). }
  split; [exact Hshown|].
  intros Hle. rewrite Hshown, firstn_all2
    by (unfold full; rewrite sorted_projection_length; exact Hle).
  apply sorted_projection_perm.
Qed.

(** X7.  Every page shows the titles its rank says, whatever order the
    store gives to equal titles in the query: the title of rank i in title
    order (counting from 0) is title i mod 5 of page i / 5 + 1.  When no two
    records have the same title the same holds of the records, and so
    pagination loses no record: every record of the collection is on one
    page, in every execution. *)
Theorem showPage_rank_lookup (query reference : StoreSort) (books : Collection) :
  (forall i : nat,
      nth_error
        (map tap_title
             (records (showPage (store := query) books (Z.of_nat (i / 5) + 1))))
        (i mod 5) =
      nth_error (map tap_title (sorted_projection (store := reference) books)) i) /\
  (NoDup (map title books) ->
   (forall i : nat,
       nth_error (records (showPage (store := query) books (Z.of_nat (i / 5) + 1)))
                 (i mod 5) =
       nth_error (sorted_projection (store := reference) books) i) /\
   (forall b, In b books ->
              exists k, 1 <= k /\
                        forall any : StoreSort,
                          In (title_author_price b)
                             (records (showPage (store := any) books k)))).
Proof.
  assert (Hoff : forall i : nat,
             Z.to_nat ((Z.of_nat (i / 5) + 1 - 1) * 5) = (5 * (i / 5))%nat)
    by (intros i; lia).
  split.
  { intros i. rewrite (showPage_titles query reference) by lia.
    rewrite Hoff. apply window_rank. }
  intros Hnd.
  assert (Hrank : forall (any : StoreSort) (i : nat),
             nth_error (records (showPage (store := any) books (Z.of_nat (i / 5) + 1)))
                       (i mod 5) =
             nth_error (sorted_projection (store := reference) books) i).
  { intros any i. rewrite showPage_records by lia.
    rewrite (sorted_projection_unique any reference) by exact Hnd.
    rewrite Hoff. apply window_rank. }
  split; [apply Hrank|].
  intros b Hb.
  assert (Hin : In (title_author_price b) (sorted_projection (store := reference) books))
    by (apply (Permutation_in _ (sorted_projection_perm books)); now apply in_map).
  apply In_nth_error in Hin as (i & Hi).
  exists (Z.of_nat (i / 5) + 1). split; [lia|].
  intros any. apply (nth_error_In _ (i mod 5)). now rewrite Hrank.
Qed.

(** X8.  Pages are in title order, within and across: every page is sorted
    by title, and no title on an earlier page is greater than a title on a
    later page. *)
Theorem showPage_pages_ordered {store : StoreSort}
    (books : Collection) (j k : Z) :
  1 <= j -> j < k ->
  StronglySorted (fun r1 r2 => String.leb (tap_title r1) (tap_title r2) = true)
                 (records (showPage books j)) /\
  (forall r1 r2,
      In r1 (records (showPage books j)) ->
      In r2 (records (showPage books k)) ->
      String.leb (tap_title r1) (tap_title r2) = true).
Proof.
  intros Hj Hjk.
  set (R := fun r1 r2 => String.leb (tap_title r1) (tap_title r2) = true).
  set (full := sorted_projection books).
  set (a := Z.to_nat ((j - 1) * 5)). set (b := Z.to_nat ((k - 1) * 5)).
  assert (Hab : (a + 5 <= b)%nat) by (subst a b; lia).
  assert (Hfull : StronglySorted R full) by apply sorted_projection_sorted.
  rewrite !showPage_records by lia. fold full a b.
  split.
  - rewrite <- (firstn_skipn a full) in Hfull.
    assert (Hskip : StronglySorted R (skipn a full)).
    { clear -Hfull. induction (firstn a full) as [|x r IH]; [exact Hfull|].
      apply IH. now apply StronglySorted_inv in Hfull. }
    rewrite <- (firstn_skipn 5 (skipn a full)) in Hskip.
    clear -Hskip. revert Hskip.
    generalize (skipn 5 (skipn a full)) as rest.
    induction (firstn 5 (skipn a full)) as [|x r IH]; intros rest Hs;
      [constructor|].
    simpl in Hs. apply StronglySorted_inv in Hs as [Hs Hx].
    constructor; [now apply (IH rest)|].
    apply Forall_app in Hx. tauto.
  - intros r1 r2 H1 H2.
    rewrite <- (firstn_skipn b full) in Hfull.
    apply (StronglySorted_app_cross R _ _ Hfull).
    + rewrite firstn_skipn_comm in H1. apply In_skipn in H1.
      assert (Hmin : firstn (a + 5) full = firstn (a + 5) (firstn b full))
        by (rewrite firstn_firstn; f_equal; lia).
      rewrite Hmin in H1. now apply In_firstn in H1.
    + now apply In_firstn in H2.
Qed.

Lemma showPage_pages_ordered_witness :
  String.leb (tap_title (mkTAP "E" "a1" (5 # 1)))
             (tap_title (mkTAP "F" "a1" (6 # 1))) = true.
Proof.
  apply (proj2 (showPage_pages_ordered (store := stable_store) six_books 1 2
                  ltac:(lia) ltac:(lia)));
    vm_compute; repeat (first [left; reflexivity | right]).
Defined.

(** ** More on update and delete *)

Lemma updateOne_cons f u b rest :
  updateOne f u (b :: rest) =
  if matches f b
  then (apply_update u b :: rest, mkUpdateResult 1 (if changes u b then 1 else 0))
  else (b :: fst (updateOne f u rest), snd (updateOne f u rest)).
Proof. simpl. destruct (matches f b); [reflexivity|]. now destruct (updateOne f u rest). Qed.

Lemma deleteOne_cons f b rest :
  deleteOne f (b :: rest) =
  if matches f b then (rest, 1%nat)
  else (b :: fst (deleteOne f rest), snd (deleteOne f rest)).
Proof. simpl. destruct (matches f b); [reflexivity|]. now destruct (deleteOne f rest). Qed.

Lemma Qeq_bool_refl (q : Q) : Qeq_bool q q = true.
Proof. apply Qeq_bool_iff. reflexivity. Qed.

(** X9.  Running the price update a second time changes nothing: the
    collection is the one left by the first run, the same record is matched,
    and the modified count of the second run is 0. *)
Theorem updatePrice_idempotent (t : string) (newPrice : Q) (books : Collection) :
  let once := updatePrice t newPrice books in
  let twice := updatePrice t newPrice (fst once) in
  fst twice = fst once /\
  matchedCount (snd twice) = matchedCount (snd once) /\
  modifiedCount (snd twice) = 0%nat.
Proof.
  unfold updatePrice.
  destruct (first_match_or_none (FTitle t) books)
    as [Hnone|(before & b & after & Hfm)].
  - cbv zeta.
    rewrite (updateOne_no_match (FTitle t) (SetPrice newPrice) books Hnone).
    cbn [fst snd].
    now rewrite (updateOne_no_match (FTitle t) (SetPrice newPrice) books Hnone).
  - destruct Hfm as [before b after Hbefore Hb]. cbv zeta.
    rewrite (updateOne_first_match (FTitle t) (SetPrice newPrice)
               before b after Hbefore Hb).
    cbn [fst snd].
    rewrite (updateOne_first_match (FTitle t) (SetPrice newPrice)
               before (apply_update (SetPrice newPrice) b) after Hbefore Hb).
    simpl. now rewrite Qeq_bool_refl.
Qed.







Lemma deleteOne_count f books :
  snd (deleteOne f books) = Nat.min 1 (count_where (matches f) books) /\
  count_where (matches f) (fst (deleteOne f books)) =
    (count_where (matches f) books - 1)%nat /\
  (length (fst (deleteOne f books)) + snd (deleteOne f books))%nat = length books.
Proof.
  unfold count_where.
  induction books as [|b r (IH1 & IH2 & IH3)]; [now simpl|].
  rewrite deleteOne_cons. simpl filter.
  destruct (matches f b) eqn:E; cbn [fst snd length].
  - repeat split; lia.
  - simpl filter. rewrite E. repeat split; lia.
Qed.

(** X11.  Running the delete a second time removes a second record exactly
    when two or more records carried the title; with at most one such record
    the second run removes nothing and leaves the collection as the first
    run left it.  After both runs the collection has lost min(2, c) records,
    c being the number of records that carried the title. *)
Theorem deleteByTitle_twice (t : string) (books : Collection) :
  let c := count_where (matches (FTitle t)) books in
  let once := deleteByTitle t books in
  let twice := deleteByTitle t (fst once) in
  snd once = Nat.min 1 c /\
  snd twice = Nat.min 1 (c - 1) /\
  (length (fst twice) + Nat.min 2 c)%nat = length books /\
  ((c <= 1)%nat -> fst twice = fst once).
Proof.
  intros c once twice. unfold twice, once, deleteByTitle.
  destruct (deleteOne_count (FTitle t) books) as (H1 & H2 & H3).
  destruct (deleteOne_count (FTitle t) (fst (deleteOne (FTitle t) books)))
    as (K1 & K2 & K3).
  fold c in H1, H2. rewrite H2 in K1.
  split; [exact H1|]. split; [exact K1|]. split; [lia|].
  intros Hc.
  rewrite (deleteOne_no_match (FTitle t) (fst (deleteOne (FTitle t) books)));
    [reflexivity|].
  assert (Hzero : count_where (matches (FTitle t))
                    (fst (deleteOne (FTitle t) books)) = 0%nat) by lia.
  unfold count_where in Hzero. apply length_zero_iff_nil in Hzero.
  apply Forall_forall. intros b Hb.
  destruct (matches (FTitle t) b) eqn:E; [|reflexivity].
  exfalso.
  assert (Hin : In b (filter (matches (FTitle t)) (fst (deleteOne (FTitle t) books))))
    by (apply filter_In; now split).
  now rewrite Hzero in Hin.
Qed.

(** X12.  The update and the delete of the script, which name different
    titles, do not disturb each other: in either order they leave the same
    collection and report the same counts. *)
Theorem updatePrice_deleteByTitle_commute
    (t1 t2 : string) (newPrice : Q) (books : Collection) :
  t1 <> t2 ->
  fst (deleteByTitle t2 (fst (updatePrice t1 newPrice books))) =
  fst (updatePrice t1 newPrice (fst (deleteByTitle t2 books))) /\
  snd (deleteByTitle t2 (fst (updatePrice t1 newPrice books))) =
  snd (deleteByTitle t2 books) /\
  snd (updatePrice t1 newPrice (fst (deleteByTitle t2 books))) =
  snd (updatePrice t1 newPrice books).
Proof.
  intros Hne. unfold deleteByTitle, updatePrice.
  induction books as [|b r (IH1 & IH2 & IH3)]; [now simpl|].
  rewrite updateOne_cons, (deleteOne_cons (FTitle t2) b r).
  destruct (matches (FTitle t1) b) eqn:E1.
  - assert (E2 : matches (FTitle t2) b = false).
    { simpl in *. apply String.eqb_eq in E1. apply String.eqb_neq. congruence. }
    rewrite E2. cbn [fst snd].
    rewrite deleteOne_cons, updateOne_cons.
    change (matches (FTitle t2) (apply_update (SetPrice newPrice) b))
      with (matches (FTitle t2) b).
    now rewrite E1, E2.
  - cbn [fst snd]. rewrite deleteOne_cons.
    destruct (matches (FTitle t2) b) eqn:E2; cbn [fst snd].
    + repeat split.
    + rewrite updateOne_cons, E1. cbn [fst snd].
      now rewrite IH1, IH2, IH3.
Qed.

Lemma updatePrice_deleteByTitle_commute_witness :
  fst (delete_rust_and_roses (fst (update_silent_river sample_books))) =
  fst (update_silent_river (fst (delete_rust_and_roses sample_books))).
Proof.
  exact (proj1 (updatePrice_deleteByTitle_commute
                  "The Silent River" "Rust and Roses" (1499 # 100) sample_books
                  ltac:(discriminate))).
Defined.

(** ** More on the aggregation pipelines *)

Lemma Permutation_concat {A} (l l' : list (list A)) :
  Permutation l l' -> Permutation (concat l) (concat l').
Proof.
  induction 1 as [|x l l' _ IH|x y l|l l' l'' _ IH1 _ IH2]; simpl.
  - constructor.
  - now apply Permutation_app_head.
  - rewrite !app_assoc. apply Permutation_app_tail, Permutation_app_comm.
  - eapply perm_trans; eassumption.
Qed.

Section GroupPartition.
Context {A K : Type}.
Variable eq_dec : forall x y : K, {x = y} + {x <> y}.
Variable key : A -> K.

Lemma groups_without_key (x : A) (r : list A) (ks : list K) :
  ~ In (key x) ks ->
  map (fun k => filter (in_group eq_dec key k) (x :: r)) ks =
  map (fun k => filter (in_group eq_dec key k) r) ks.
Proof.
  intros Hout. apply map_ext_in. intros k Hk. simpl.
  unfold in_group at 1. destruct (eq_dec (key x) k) as [E|_]; [|reflexivity].
  exfalso. apply Hout. now rewrite E.
Qed.

Lemma groups_with_key (x : A) (r : list A) (ks : list K) :
  NoDup ks -> In (key x) ks ->
  Permutation (concat (map (fun k => filter (in_group eq_dec key k) (x :: r)) ks))
              (x :: concat (map (fun k => filter (in_group eq_dec key k) r) ks)).
Proof.
  induction 1 as [|k ks' Hk Hnd IH]; [contradiction|].
  intros Hin. cbn [map concat].
  assert (Hhead : filter (in_group eq_dec key k) (x :: r) =
                  if eq_dec (key x) k
                  then x :: filter (in_group eq_dec key k) r
                  else filter (in_group eq_dec key k) r)
    by (simpl; unfold in_group at 1; now destruct (eq_dec (key x) k)).
  rewrite Hhead. destruct (eq_dec (key x) k) as [E|E].
  - rewrite groups_without_key by (rewrite E; exact Hk). apply Permutation_refl.
  - destruct Hin as [Hin|Hin]; [congruence|].
    eapply perm_trans; [apply Permutation_app_head, IH, Hin|].
    apply Permutation_sym, Permutation_middle.
Qed.

(** The groups of a covering list of distinct keys hold every document
    once. *)
Lemma groups_partition (ks : list K) (docs : list A) :
  NoDup ks -> (forall x, In x docs -> In (key x) ks) ->
  Permutation (concat (map (fun k => filter (in_group eq_dec key k) docs) ks)) docs.
Proof.
  intros Hnd. induction docs as [|x r IH]; intros Hks.
  - simpl. clear. induction ks as [|k ks' IHk]; [constructor | exact IHk].
  - eapply perm_trans; [apply groups_with_key; [exact Hnd | apply Hks; now left]|].
    apply perm_skip, IH. intros y Hy. apply Hks. now right.
Qed.
End GroupPartition.

Lemma findByGenre_records {store : StoreSort} (g : string) (books : Collection) :
  records (findByGenre g books) = filter (in_group string_dec genre g) books.
Proof.
  unfold findByGenre. rewrite toArray_find, map_id. simpl.
  symmetry. apply string_group_members.
Qed.

Lemma genre_rows_partition {store : StoreSort} (books : Collection) :
  Permutation
    (concat (map (fun r => records (findByGenre (ByGenre._id r) books))
                 (averagePriceByGenre books)))
    books.
Proof.
  set (acc := fun g (docs : list Book) =>
                ByGenre.mk g (avg (map price docs)) (length docs)).
  assert (Hperm : Permutation (group string_dec genre acc books)
                              (averagePriceByGenre books)) by apply sortBy_perm.
  eapply perm_trans.
  { apply Permutation_concat, Permutation_map, Permutation_sym, Hperm. }
  unfold group. rewrite map_map. cbn [acc ByGenre._id].
  rewrite (map_ext _ (fun k => filter (in_group string_dec genre k) books))
    by (intros k; apply findByGenre_records).
  apply groups_partition; [apply NoDup_nodup|].
  intros x Hx. apply nodup_In. now apply in_map.
Qed.

(** X13.  The genre rows index the collection: asking [findByGenre] for
    the genre of each row of [averagePriceByGenre], one after the other,
    returns every record of the collection exactly once, and the count of a
    row is the number of records its genre query returns. *)
Theorem averagePriceByGenre_rows_index_collection {store : StoreSort}
    (books : Collection) :
  let answers := map (fun r => records (findByGenre (ByGenre._id r) books))
                     (averagePriceByGenre books) in
  Permutation (concat answers) books /\
  map (@length Book) answers = map ByGenre.count (averagePriceByGenre books) /\
  list_sum (map ByGenre.count (averagePriceByGenre books)) = length books.
Proof.
  intros answers.
  set (acc := fun g (docs : list Book) =>
                ByGenre.mk g (avg (map price docs)) (length docs)).
  assert (Hperm : Permutation (group string_dec genre acc books)
                              (averagePriceByGenre books)) by apply sortBy_perm.
  assert (Hacc : forall k l, ByGenre._id (acc k l) = k) by reflexivity.
  split; [apply genre_rows_partition|]. split.
  - unfold answers. rewrite map_map. apply map_ext_in. intros r Hr.
    rewrite findByGenre_records.
    rewrite (rows_row string_dec genre acc ByGenre._id Hacc books _ Hperm r Hr) at 2.
    reflexivity.
  - apply (rows_sizes_sum string_dec genre acc books _ Hperm ByGenre.count).
    reflexivity.
Qed.

Lemma decade_of_quot (year : Z) : decade_of year = 10 * (year ÷ 10).
Proof.
  unfold decade_of, mod_. pose proof (Z.quot_rem' year 10). lia.
Qed.

Lemma decade_of_offset (year : Z) :
  (0 <= year -> 0 <= year - decade_of year < 10) /\
  (year <= 0 -> -10 < year - decade_of year <= 0).
Proof.
  unfold decade_of, mod_. split; intros Hy.
  - pose proof (Z.rem_bound_pos_pos year 10 ltac:(lia) Hy). lia.
  - pose proof (Z.rem_bound_pos_neg year 10 ltac:(lia) Hy). lia.
Qed.

(** X16.  The decade of a year, as the pipeline computes it, is the year
    rounded toward zero to a multiple of ten, for negative years too: it is
    within 9 of the year and never further from zero, the decade of -y is
    minus the decade of y, and the years -9 .. 9 all fall in decade 0. *)
Theorem decade_of_rounds_toward_zero (year : Z) :
  decade_of year = 10 * (year ÷ 10) /\
  Z.abs (year - decade_of year) <= 9 /\
  Z.abs (decade_of year) <= Z.abs year /\
  decade_of (- year) = - decade_of year /\
  (decade_of year = 0 <-> -9 <= year <= 9).
Proof.
  pose proof (decade_of_quot year) as Hq.
  destruct (decade_of_offset year) as [Hpos Hneg].
  split; [exact Hq|].
  split; [lia|]. split; [lia|]. split.
  - unfold decade_of, mod_. rewrite Z.rem_opp_l'. lia.
  - lia.
Qed.

(** X17.  The keys of the decade rows are multiples of ten, consecutive
    rows are at least ten years apart, and no row is empty. *)
Theorem countByDecade_keys_are_decades {store : StoreSort} (books : Collection) :
  let rows := countByDecade books in
  Forall (fun r => exists q, ByDecade._id r = 10 * q) rows /\
  StronglySorted (fun r1 r2 => ByDecade._id r1 + 10 <= ByDecade._id r2) rows /\
  Forall (fun r => (1 <= ByDecade.count r)%nat) rows.
Proof.
  intros rows.
  set (acc := fun d (docs : list ByDecade.projected) => ByDecade.mk d (length docs)).
  assert (Hperm : Permutation
                    (group Z.eq_dec ByDecade.decade acc (map project_decade books))
                    rows) by apply sortBy_perm.
  assert (Hacc : forall k l, ByDecade._id (acc k l) = k) by reflexivity.
  assert (Hkey : forall r, In r rows ->
                   exists b, In b books /\
                             decade_of (published_year b) = ByDecade._id r).
  { intros r Hr.
    assert (Hin : In (ByDecade._id r) (map ByDecade._id rows)) by now apply in_map.
    apply (rows_keys_In Z.eq_dec _ acc ByDecade._id Hacc _ rows Hperm)
      in Hin as (x & Hx & Hd).
    apply in_map_iff in Hx as (b & <- & Hb). now exists b. }
  assert (Hmult : Forall (fun r => exists q, ByDecade._id r = 10 * q) rows).
  { apply Forall_forall. intros r Hr.
    destruct (Hkey r Hr) as (b & _ & <-).
    exists (published_year b ÷ 10). apply decade_of_quot. }
  split; [exact Hmult|]. split.
  - assert (Hstrict : StronglySorted
                        (fun r1 r2 => ByDecade._id r1 < ByDecade._id r2) rows).
    { apply sorted_distinct_ids_strict.
      - apply (sortBy_sorted _ ByDecade.id_asc id_asc_total id_asc_trans).
      - exact (rows_keys_NoDup Z.eq_dec _ acc ByDecade._id Hacc _ rows Hperm). }
    clear -Hstrict Hmult. induction Hstrict as [|x r Hr IH Hx]; constructor.
    + apply IH. now inversion Hmult.
    + inversion Hmult as [|? ? [qx Ex] Hrest]; subst.
      rewrite Forall_forall in *. intros y Hy.
      destruct (Hrest y Hy) as [qy Ey]. specialize (Hx y Hy). lia.
  - apply Forall_forall. intros r Hr.
    destruct (Hkey r Hr) as (b & Hb & Hd).
    rewrite (rows_row Z.eq_dec _ acc ByDecade._id Hacc _ rows Hperm r Hr).
    cbn [acc ByDecade.count ByDecade._id]. rewrite decade_group_size.
    unfold count_where.
    assert (Hin : In b (filter (fun b0 => decade_of (published_year b0) =?
                                          ByDecade._id r) books))
      by (apply filter_In; split; [exact Hb | now apply Z.eqb_eq]).
    destruct (filter _ books); [contradiction | simpl; lia].
Qed.

Lemma list_sum_bound (m : nat) (l : list nat) :
  Forall (fun x => x <= m)%nat l -> (list_sum l <= length l * m)%nat.
Proof.
  induction 1 as [|x r Hx _ IH]; simpl; lia.
Qed.

Lemma list_sum_member (x : nat) (l : list nat) : In x l -> (x <= list_sum l)%nat.
Proof.
  induction l as [|y r IH]; simpl; [contradiction|].
  intros [->|Hin]; [lia|]. specialize (IH Hin). lia.
Qed.

(** X18.  The author returned has at least the average number of books:
    the count of the row, times the number of different authors, is not
    below the number of records; and the count is at least 1 and at most the
    number of records. *)
Theorem topAuthorByBookCount_pigeonhole {store : StoreSort}
    (books : Collection) (r : ByAuthor.row) :
  In r (topAuthorByBookCount books) ->
  (1 <= ByAuthor.count r <= length books)%nat /\
  (length books <=
   ByAuthor.count r * length (nodup string_dec (map author books)))%nat.
Proof.
  intros Hr.
  set (acc := fun a (docs : list Book) => ByAuthor.mk a (length docs)).
  set (sorted := sortBy ByAuthor.count_desc (group string_dec author acc books)).
  assert (Hperm : Permutation (group string_dec author acc books) sorted)
    by apply sortBy_perm.
  assert (Hsorted : StronglySorted (holds ByAuthor.count_desc) sorted)
    by apply (sortBy_sorted _ _ count_desc_total count_desc_trans).
  assert (Hsum : list_sum (map ByAuthor.count sorted) = length books)
    by (apply (rows_sizes_sum string_dec author acc books sorted Hperm
                 ByAuthor.count); reflexivity).
  assert (Hlen : length sorted = length (nodup string_dec (map author books))).
  { rewrite <- (Permutation_length Hperm). unfold group. apply length_map. }
  change (In r (firstn 1 sorted)) in Hr.
  destruct sorted as [|r0 rest]; [contradiction|].
  destruct Hr as [<-|[]].
  apply StronglySorted_inv in Hsorted as [_ Hall].
  assert (Hmax : Forall (fun c => c <= ByAuthor.count r0)%nat
                        (map ByAuthor.count (r0 :: rest))).
  { apply Forall_map. constructor; [lia|].
    eapply Forall_impl; [|exact Hall]. intros y Hy.
    unfold holds, ByAuthor.count_desc in Hy. now apply Nat.leb_le in Hy. }
  apply list_sum_bound in Hmax. rewrite length_map, Hsum, Hlen in Hmax.
  assert (Hle : (ByAuthor.count r0 <= length books)%nat).
  { rewrite <- Hsum. apply list_sum_member. now left. }
  assert (Hbooks : books <> []).
  { intros ->. simpl in Hlen. discriminate. }
  assert (0 < length books)%nat by (destruct books; [congruence | simpl; lia]).
  split; [|lia]. split; [|exact Hle].
  destruct (ByAuthor.count r0); [lia | lia].
Qed.

Lemma topAuthorByBookCount_pigeonhole_witness :
  (1 <= 2 <= length sample_books)%nat /\
  (length sample_books <= 2 * length (nodup string_dec (map author sample_books)))%nat.
Proof.
  exact (topAuthorByBookCount_pigeonhole (store := stable_store) sample_books
           (ByAuthor.mk "Maria Njeri" 2) (or_introl eq_refl)).
Defined.

(** X19.  On the empty collection every pipeline answers with no row, and
    no pipeline ever answers with more rows than the collection has records;
    the genre and decade pipelines answer with as many rows as there are
    different genres resp. decades. *)
Theorem aggregations_row_counts {store : StoreSort} (books : Collection) :
  averagePriceByGenre [] = [] /\
  topAuthorByBookCount [] = [] /\
  countByDecade [] = [] /\
  length (averagePriceByGenre books) =
    length (nodup string_dec (map genre books)) /\
  length (countByDecade books) =
    length (nodup Z.eq_dec (map (fun b => decade_of (published_year b)) books)) /\
  (length (averagePriceByGenre books) <= length books)%nat /\
  (length (countByDecade books) <= length books)%nat /\
  (length (topAuthorByBookCount books) <= length books)%nat.
Proof.
  assert (Hempty : forall {A} (le : A -> A -> bool), sortBy le [] = []).
  { intros A le. apply Permutation_nil, sortBy_perm. }
  assert (Hnodup : forall {K} (dec : forall x y : K, {x = y} + {x <> y}) (l : list K),
             (length (nodup dec l) <= length l)%nat).
  { intros K dec l. apply NoDup_incl_length; [apply NoDup_nodup|].
    intros x Hx. now apply nodup_In in Hx. }
  assert (Hgenre : length (averagePriceByGenre books) =
                   length (nodup string_dec (map genre books))).
  { unfold averagePriceByGenre.
    rewrite <- (Permutation_length (sortBy_perm _ _ _)).
    unfold group. apply length_map. }
  assert (Hdecade : length (countByDecade books) =
                    length (nodup Z.eq_dec
                              (map (fun b => decade_of (published_year b)) books))).
  { unfold countByDecade.
    rewrite <- (Permutation_length (sortBy_perm _ _ _)).
    unfold group. rewrite length_map, map_map. reflexivity. }
  split; [apply Hempty|]. split; [unfold topAuthorByBookCount; simpl; now rewrite Hempty|].
  split; [apply Hempty|]. split; [exact Hgenre|]. split; [exact Hdecade|].
  split; [rewrite Hgenre; etransitivity; [apply Hnodup | now rewrite length_map]|].
  split; [rewrite Hdecade; etransitivity; [apply Hnodup | now rewrite length_map]|].
  unfold topAuthorByBookCount, limit_stage.
  rewrite length_firstn.
  etransitivity; [apply Nat.le_min_r|].
  rewrite <- (Permutation_length (sortBy_perm _ _ _)).
  unfold group. rewrite length_map.
  etransitivity; [apply Hnodup | now rewrite length_map].
Qed.

(** ** The lookup that follows the update *)

(** X20.  Update, then verify: the projected lookup of line 34, run after
    the update, prints what it printed before with the price of its first
    record replaced by the new price; it prints nothing, before and after,
    when no record has the title. *)
Theorem updatePrice_then_findTitlePrice {store : StoreSort}
    (t : string) (newPrice : Q) (books : Collection) :
  records (findTitlePrice t (fst (updatePrice t newPrice books))) =
  match records (findTitlePrice t books) with
  | [] => []
  | _ :: rest => mkTP t newPrice :: rest
  end.
Proof.
  unfold findTitlePrice, updatePrice. rewrite !toArray_find. cbn [records].
  destruct (first_match_or_none (FTitle t) books)
    as [Hnone|(before & b & after & Hfm)].
  - rewrite updateOne_no_match by exact Hnone. cbn [fst].
    now rewrite filter_none by exact Hnone.
  - destruct Hfm as [before b after Hbefore Hb].
    rewrite updateOne_first_match by assumption. cbn [fst].
    rewrite !filter_app, !filter_none by exact Hbefore.
    simpl in *. rewrite Hb. simpl.
    apply String.eqb_eq in Hb. unfold title_price at 1. simpl. now rewrite Hb.
Qed.
